(** * goEmail: a shallow embedding of [goEmail.go] and its properties

    Go strings and byte slices are modelled as [string] (a sequence of
    8-bit characters, so [String.length] is Go's [len]), Go's [int] as [Z],
    slices as lists.  Functions keep the names they have in the source. *)

From Stdlib Require Import ZArith List Bool Ascii String Lia.
Import ListNotations.

Open Scope string_scope.
Open Scope Z_scope.

(** ** Bytes and the pieces of the Go library the source calls *)

Module GoString.

Definition CR : ascii := "013"%char.
Definition LF : ascii := "010"%char.
Definition SP : ascii := " "%char.

(** The Go literal for a double quote, as a string. *)
Definition DQUOTE : string := String "034"%char "".

(** The Go literal for carriage return, line feed. *)
Definition CRLF : string := String CR (String LF "").

(** Go's [len] of a string, as an [int]. *)
Definition len (s : string) : Z := Z.of_nat (String.length s).

(** [strings.Split(s, sep)] for a one-byte separator: the pieces between
    the separators, empty pieces kept; one empty piece for the empty
    string. *)
Fixpoint Split (s : string) (sep : ascii) : list string :=
  match s with
  | "" => [""]
  | String c rest =>
      if Ascii.eqb c sep then "" :: Split rest sep
      else match Split rest sep with
           | w :: ws => String c w :: ws
           | [] => [String c ""]
           end
  end.

(** [strings.Join(elems, sep)]. *)
Definition Join (elems : list string) (sep : string) : string :=
  String.concat sep elems.

(** [strings.HasPrefix(s, p)]. *)
Definition HasPrefix (s p : string) : bool := String.prefix p s.

(** [strings.Contains(s, sub)]. *)
Fixpoint Contains (s sub : string) : bool :=
  String.prefix sub s ||
  match s with
  | "" => false
  | String _ rest => Contains rest sub
  end.

(** Number of (possibly overlapping) places where [sub] starts in [s]. *)
Fixpoint occurrences (s sub : string) : nat :=
  ((if String.prefix sub s then 1 else 0) +
   match s with
   | "" => 0
   | String _ rest => occurrences rest sub
   end)%nat.

(** Every byte of [s] satisfies [p]. *)
Fixpoint forallb_string (p : ascii -> bool) (s : string) : bool :=
  match s with
  | "" => true
  | String c rest => p c && forallb_string p rest
  end.

Definition is_space (c : ascii) : bool := Ascii.eqb c SP.
Definition not_CR (c : ascii) : bool := negb (Ascii.eqb c CR).

End GoString.
Import GoString.

(** ** The header folder *)

(** The three variables of [foldString]'s loop. *)
Record foldState : Type := mkFold {
  foldedBuffer : string;
  lineBuffer : string;
  lineLength : Z
}.

(** One iteration of the [for _, word := range ...] loop of [foldString].
    The lengths of strings held in memory are far below the bound of a
    64-bit [int], so the sums below do not wrap. *)
Definition foldWord (maxLength : Z) (st : foldState) (word : string) : foldState :=
  let wordLength := len word in
  if wordLength + lineLength st + 1 <=? maxLength then
    mkFold (foldedBuffer st)
           (lineBuffer st ++ word ++ " ")
           (lineLength st + (wordLength + 1))
  else
    mkFold (foldedBuffer st ++ lineBuffer st ++ CRLF ++ " ")
           (word ++ " ")
           (wordLength + 1).

Definition foldString (maxLength : Z) (prefix s : string) : string :=
  let st := fold_left (foldWord maxLength) (Split s SP)
                      (mkFold "" prefix (len prefix)) in
  foldedBuffer st ++ lineBuffer st ++ CRLF.

(** The same loop, keeping the finished lines apart instead of gluing them
    into [foldedBuffer]: the lines [foldString] emits, in order, each
    without the CRLF (and continuation space) that follows it. *)
Definition foldLine (maxLength : Z) (st : list string * string * Z) (word : string)
  : list string * string * Z :=
  let '(done, line, lineLength) := st in
  let wordLength := len word in
  if wordLength + lineLength + 1 <=? maxLength then
    (done, line ++ word ++ " ", lineLength + (wordLength + 1))
  else
    ((done ++ [line])%list, word ++ " ", wordLength + 1).

Definition foldLines (maxLength : Z) (prefix s : string) : list string :=
  let '(done, line, _) :=
    fold_left (foldLine maxLength) (Split s SP) ([], prefix, len prefix) in
  (done ++ [line])%list.

(** ** The standard-library calls behind [MessageID] *)

(** [crypto/sha1]: the digest of FIPS 180-4 over 32-bit words kept in [Z]. *)
Module sha1.

Definition w32 (x : Z) : Z := x mod 2 ^ 32.

Definition rotl (n x : Z) : Z :=
  w32 (Z.lor (Z.shiftl x n) (Z.shiftr x (32 - n))).

Definition byte_of_ascii (c : ascii) : Z := Z.of_N (N_of_ascii c).
Definition ascii_of_byte (b : Z) : ascii := ascii_of_N (Z.to_N (b mod 256)).

(** Big-endian bytes of a 64-bit and of a 32-bit number. *)
Definition be64 (n : Z) : list Z :=
  map (fun i => (n / 2 ^ (8 * i)) mod 256) [7; 6; 5; 4; 3; 2; 1; 0].

Definition be32 (n : Z) : list ascii :=
  [ascii_of_byte (n / 2 ^ 24); ascii_of_byte (n / 2 ^ 16);
   ascii_of_byte (n / 2 ^ 8); ascii_of_byte n].

(** The message, a 1 bit, zero bits up to 56 modulo 64 bytes, and the
    length in bits. *)
Definition pad (msg : list Z) : list Z :=
  let l := Z.of_nat (List.length msg) in
  let zeros := Z.to_nat ((55 - l) mod 64) in
  (msg ++ [128] ++ repeat 0 zeros ++ be64 (8 * l))%list.

Fixpoint words (bs : list Z) : list Z :=
  match bs with
  | b0 :: b1 :: b2 :: b3 :: rest =>
      (b0 * 2 ^ 24 + b1 * 2 ^ 16 + b2 * 2 ^ 8 + b3) :: words rest
  | _ => []
  end.

(** Blocks of sixteen words. *)
Fixpoint blocks (fuel : nat) (ws : list Z) : list (list Z) :=
  match fuel, ws with
  | S fuel', _ :: _ => firstn 16 ws :: blocks fuel' (skipn 16 ws)
  | _, _ => []
  end.

(** The message schedule, newest word first. *)
Fixpoint extend (n : nat) (rev_w : list Z) : list Z :=
  match n with
  | O => rev_w
  | S n' =>
      let w i := nth i rev_w 0 in
      extend n'
        (rotl 1 (Z.lxor (Z.lxor (Z.lxor (w 2%nat) (w 7%nat)) (w 13%nat)) (w 15%nat))
           :: rev_w)
  end.

Definition schedule (block : list Z) : list Z :=
  rev (extend 64 (rev block)).

Record digest : Type := mkDigest { h0 : Z; h1 : Z; h2 : Z; h3 : Z; h4 : Z }.

Definition init : digest :=
  mkDigest 0x67452301 0xEFCDAB89 0x98BADCFE 0x10325476 0xC3D2E1F0.

Definition f (t : Z) (b c d : Z) : Z :=
  if t <? 20 then Z.lor (Z.land b c) (Z.land (Z.lxor b 0xFFFFFFFF) d)
  else if t <? 40 then Z.lxor (Z.lxor b c) d
  else if t <? 60 then Z.lor (Z.lor (Z.land b c) (Z.land b d)) (Z.land c d)
  else Z.lxor (Z.lxor b c) d.

Definition k (t : Z) : Z :=
  if t <? 20 then 0x5A827999
  else if t <? 40 then 0x6ED9EBA1
  else if t <? 60 then 0x8F1BBCDC
  else 0xCA62C1D6.

Definition round (st : digest * Z) (w : Z) : digest * Z :=
  let '(mkDigest a b c d e, t) := st in
  let temp := w32 (rotl 5 a + f t b c d + e + k t + w) in
  (mkDigest temp a (rotl 30 b) c d, t + 1).

Definition compress (h : digest) (block : list Z) : digest :=
  let '(mkDigest a b c d e, _) := fold_left round (schedule block) (h, 0) in
  mkDigest (w32 (h0 h + a)) (w32 (h1 h + b)) (w32 (h2 h + c))
           (w32 (h3 h + d)) (w32 (h4 h + e)).

(** [hasher.Write(data); hasher.Sum(nil)] on a fresh hasher: the twenty
    bytes of the digest. *)
Definition Sum (data : string) : string :=
  let ws := words (pad (map byte_of_ascii (list_ascii_of_string data))) in
  let h := fold_left compress (blocks (List.length ws) ws) init in
  string_of_list_ascii
    (be32 (h0 h) ++ be32 (h1 h) ++ be32 (h2 h) ++ be32 (h3 h) ++ be32 (h4 h))%list.

End sha1.

(** [fmt.Sprintf("%x", b)] for a byte slice: two lower-case hexadecimal
    digits a byte. *)
Definition hexDigit (n : nat) : ascii :=
  match String.get n "0123456789abcdef" with
  | Some c => c
  | None => "0"%char
  end.

Fixpoint Sprintf_x (b : string) : string :=
  match b with
  | "" => ""
  | String c rest =>
      String (hexDigit (nat_of_ascii c / 16))
        (String (hexDigit (nat_of_ascii c mod 16)) (Sprintf_x rest))
  end.

Definition isHexDigit (c : ascii) : bool :=
  let n := nat_of_ascii c in
  ((48 <=? n) && (n <=? 57) || (97 <=? n) && (n <=? 102))%nat.

(** ** A small state monad

    Pointer receivers and the process's surroundings are threaded as
    explicit state. *)

Definition State (S A : Type) : Type := S -> A * S.

Definition ret {S A : Type} (a : A) : State S A := fun s => (a, s).

Definition bind {S A B : Type} (m : State S A) (f : A -> State S B) : State S B :=
  fun s => let '(a, s') := m s in f a s'.

Definition get {S : Type} : State S S := fun s => (s, s).
Definition gets {S A : Type} (f : S -> A) : State S A := fun s => (f s, s).
Definition modify {S : Type} (f : S -> S) : State S unit := fun s => (tt, f s).

Definition evalState {S A : Type} (m : State S A) (s : S) : A := fst (m s).
Definition execState {S A : Type} (m : State S A) (s : S) : S := snd (m s).

Declare Scope monad_scope.
Delimit Scope monad_scope with monad.
Notation "x <- m ;; k" := (bind m (fun x => k))
  (at level 61, m at next level, right associativity) : monad_scope.
Notation "m ;; k" := (bind m (fun _ => k))
  (at level 61, right associativity) : monad_scope.
Open Scope monad_scope.

(** [for _, x := range xs { body(x) }]. *)
Fixpoint forEach {S A : Type} (xs : list A) (body : A -> State S unit) : State S unit :=
  match xs with
  | [] => ret tt
  | x :: rest => body x ;; forEach rest body
  end.

(** ** The data model *)

(** A value of the interface [TransferEncoder]: its two methods, without
    state of their own.  The interface value is taken to be non-nil, as
    [NewEmail] and [NewEmailWithEncoder] called with an encoder make it. *)
Record TransferEncoder : Type := mkEncoder {
  Encode : string -> string;
  TransferEncodingType : string
}.

Record emailBody : Type := mkBody {
  mimeType : string;
  bodyText : string
}.

Record Email : Type := mkEmail {
  To : list string;
  Cc : list string;
  Bcc : list string;
  From : string;
  Subject : string;
  emailBodies : list emailBody;
  encoder : TransferEncoder
}.

(** [formattedEmail]; its field [encoder] is [fencoder] here. *)
Record formattedEmail : Type := mkFormatted {
  buffer : string;
  boundary : string;
  fencoder : TransferEncoder
}.

(** Go's [error]: [None] is [nil]. *)
Definition error : Type := option string.

Definition FormatMailbox (address name : string) : string :=
  if (name =? "")%string then address
  else name ++ " <" ++ address ++ ">".

Definition NewEmailWithEncoder (enc : TransferEncoder) : Email :=
  mkEmail [] [] [] "" "" [] enc.

(** *** Writing into a [formattedEmail] *)

Definition WriteString (s : string) : State formattedEmail unit :=
  modify (fun e => mkFormatted (buffer e ++ s) (boundary e) (fencoder e)).

Definition addHeader (field value : string) : State formattedEmail unit :=
  if negb (value =? "")%string then
    WriteString (foldString 78 (field ++ ": ") value)
  else ret tt.

Definition addBody (body : emailBody) : State formattedEmail unit :=
  fEmail <- get ;;
  WriteString (boundary fEmail ++ CRLF) ;;
  addHeader "Content-Type" (mimeType body) ;;
  addHeader "Content-Transfer-Encoding" (TransferEncodingType (fencoder fEmail)) ;;
  WriteString CRLF ;;
  let encoded := Encode (fencoder fEmail) (bodyText body) in
  WriteString encoded ;;
  WriteString CRLF.

(** ** The methods of [*Email] *)

Section Surroundings.

(** [fmt.Sprintf("%+v", e)] for an [*Email]: some rendering of the whole
    object. *)
Variable Sprintf_v : Email -> string.

(** [quotedPrintable.NewEncoder()]. *)
Variable quotedPrintable_NewEncoder : TransferEncoder.

(** [smtp.Auth]. *)
Variable Auth : Type.

(** The arguments of one [smtp.SendMail] call. *)
Record SendMailCall : Type := mkCall {
  call_addr : string;
  call_auth : Auth;
  call_from : string;
  call_to : list string;
  call_msg : string
}.

(** What a method of [*Email] can see and touch: the object its receiver
    points to, the clock as [time.Now().Format(time.RFC1123Z)] reads it,
    and the mail relay, which answers its n-th call as [smtp_reply] says
    and whose calls so far are [smtp_calls]. *)
Record World : Type := mkWorld {
  this : Email;
  clock : string;
  smtp_reply : nat -> SendMailCall -> error;
  smtp_calls : list SendMailCall
}.

Definition M (A : Type) : Type := State World A.

Definition update (f : Email -> Email) : M unit :=
  modify (fun w => mkWorld (f (this w)) (clock w) (smtp_reply w) (smtp_calls w)).

Definition time_Now_RFC1123Z : M string := gets clock.

Definition smtp_SendMail (addr : string) (a : Auth) (from : string)
    (to : list string) (msg : string) : M error :=
  fun w =>
    let c := mkCall addr a from to msg in
    (smtp_reply w (List.length (smtp_calls w)) c,
     mkWorld (this w) (clock w) (smtp_reply w) (smtp_calls w ++ [c])%list).

Definition NewEmail : Email := NewEmailWithEncoder quotedPrintable_NewEncoder.

Definition AddRecipient (mailbox : string) : M unit :=
  update (fun e => mkEmail (To e ++ [mailbox])%list (Cc e) (Bcc e) (From e)
                           (Subject e) (emailBodies e) (encoder e)).

Definition AddCc (mailbox : string) : M unit :=
  update (fun e => mkEmail (To e) (Cc e ++ [mailbox])%list (Bcc e) (From e)
                           (Subject e) (emailBodies e) (encoder e)).

Definition AddBcc (mailbox : string) : M unit :=
  update (fun e => mkEmail (To e) (Cc e) (Bcc e ++ [mailbox])%list (From e)
                           (Subject e) (emailBodies e) (encoder e)).

Definition AddBody (mimeType body : string) : M unit :=
  update (fun e => mkEmail (To e) (Cc e) (Bcc e) (From e) (Subject e)
                           (emailBodies e ++ [mkBody mimeType body])%list (encoder e)).

Definition AddHtmlBody (body : string) : M unit :=
  AddBody "text/html; charset=utf-8" body.

Definition AddTextBody (body : string) : M unit :=
  AddBody "text/plain; charset=utf-8" body.

(** The assignments [email.From = s] and [email.Subject = s] a caller
    makes on the exported fields. *)
Definition setFrom (s : string) : M unit :=
  update (fun e => mkEmail (To e) (Cc e) (Bcc e) s (Subject e)
                           (emailBodies e) (encoder e)).

Definition setSubject (s : string) : M unit :=
  update (fun e => mkEmail (To e) (Cc e) (Bcc e) (From e) s
                           (emailBodies e) (encoder e)).

Definition MessageID : M string :=
  e <- gets this ;;
  ret (Sprintf_x (sha1.Sum (Sprintf_v e))).

Definition Format : M string :=
  email <- gets this ;;
  id <- MessageID ;;
  let boundary := "=_" ++ id in
  now <- time_Now_RFC1123Z ;;
  let fEmail := mkFormatted "" (CRLF ++ "--" ++ boundary) (encoder email) in
  ret (buffer (execState
    (addHeader "To" (Join (To email) ", ") ;;
     addHeader "Cc" (Join (Cc email) ", ") ;;
     addHeader "Bcc" (Join (Bcc email) ", ") ;;
     addHeader "From" (From email) ;;
     addHeader "Subject" (Subject email) ;;
     addHeader "Date" now ;;
     addHeader "Content-Type"
       ("multipart/alternative; boundary=" ++ DQUOTE ++ boundary ++ DQUOTE) ;;
     addHeader "MIME-Version" "1.0" ;;
     forEach (emailBodies email) addBody)
    fEmail)).

Definition Send (addr : string) (a : Auth) : M error :=
  from <- gets (fun w => From (this w)) ;;
  to <- gets (fun w => To (this w)) ;;
  msg <- Format ;;
  smtp_SendMail addr a from to msg.

End Surroundings.

Arguments this {Auth} _.
Arguments clock {Auth} _.
Arguments smtp_reply {Auth} _ _ _.
Arguments smtp_calls {Auth} _.
Arguments call_addr {Auth} _.
Arguments call_auth {Auth} _.
Arguments call_from {Auth} _.
Arguments call_to {Auth} _.
Arguments call_msg {Auth} _.

(** ** What the writers put into the buffer *)

(** What [addHeader field value] appends. *)
Definition headerLine (field value : string) : string :=
  if (value =? "")%string then "" else foldString 78 (field ++ ": ") value.

(** What [addBody body] appends, the boundary marker and the encoder being
    those of the [formattedEmail]. *)
Definition bodyPart (marker : string) (enc : TransferEncoder) (body : emailBody) : string :=
  (marker ++ CRLF)
  ++ headerLine "Content-Type" (mimeType body)
  ++ headerLine "Content-Transfer-Encoding" (TransferEncodingType enc)
  ++ CRLF
  ++ Encode enc (bodyText body)
  ++ CRLF.

(** The spec's reading of a part: as [bodyPart], the transfer-encoding
    header always there. *)
Definition bodyPart_as_specified (marker : string) (enc : TransferEncoder)
    (body : emailBody) : string :=
  (marker ++ CRLF)
  ++ headerLine "Content-Type" (mimeType body)
  ++ foldString 78 "Content-Transfer-Encoding: " (TransferEncodingType enc)
  ++ CRLF
  ++ Encode enc (bodyText body)
  ++ CRLF.

(** A computation that only appends [out] to the buffer. *)
Definition writes (m : State formattedEmail unit) (out : string) : Prop :=
  forall e, m e = (tt, mkFormatted (buffer e ++ out) (boundary e) (fencoder e)).

(** ** Concrete surroundings, to run the methods *)

Module Concrete.

(** The text [fmt] prints for a struct pointer under the verb [%+v]:
    field names, slices in brackets, and for the interface field
    [encoder] whatever [show] gives for the value it holds. *)
Definition Sprintf_v (show : TransferEncoder -> string) (e : Email) : string :=
  "&{To:[" ++ Join (To e) " " ++ "] Cc:[" ++ Join (Cc e) " "
  ++ "] Bcc:[" ++ Join (Bcc e) " " ++ "] From:" ++ From e
  ++ " Subject:" ++ Subject e ++ " emailBodies:["
  ++ Join (List.map (fun b => "{mimeType:" ++ mimeType b ++ " bodyText:"
                              ++ bodyText b ++ "}") (emailBodies e)) " "
  ++ "] encoder:" ++ show (encoder e) ++ "}".

(** An encoder held by pointer prints as its address. *)
Definition show (_ : TransferEncoder) : string := "0xc000012120".

Definition upperHexDigit (n : nat) : ascii :=
  match String.get n "0123456789ABCDEF" with
  | Some c => c
  | None => "0"%char
  end.

Definition qpLiteral (c : ascii) : bool :=
  let n := nat_of_ascii c in
  ((32 <=? n) && (n <=? 126) && negb (n =? 61))%nat.

(** Modelled from the spec: the quoted-printable encoder of the package
    [quotedPrintable], which this repository imports and does not hold.
    Printable bytes other than the equals sign stand for themselves, every
    other byte is an equals sign and two hexadecimal digits, and a line
    is broken softly before it would pass 76 bytes. *)
Fixpoint qpEncode (col : nat) (src : string) : string :=
  match src with
  | "" => ""
  | String c rest =>
      let token :=
        if qpLiteral c then String c ""
        else String "="%char
               (String (upperHexDigit (nat_of_ascii c / 16))
                  (String (upperHexDigit (nat_of_ascii c mod 16)) "")) in
      let n := String.length token in
      if (75 <? col + n)%nat
      then "=" ++ CRLF ++ token ++ qpEncode n rest
      else token ++ qpEncode (col + n) rest
  end.

Definition quotedPrintable_NewEncoder : TransferEncoder :=
  mkEncoder (qpEncode 0) "quoted-printable".

(** An encoder that names no encoding. *)
Definition unnamedEncoder : TransferEncoder :=
  mkEncoder (fun src => src) "".

(** [smtp.Auth] left out: no credentials. *)
Definition Auth : Type := unit.

(** A relay that refuses every message. *)
Definition refusing (_ : nat) (_ : SendMailCall Auth) : error :=
  Some "554 transaction failed".

(** A relay that takes every message. *)
Definition accepting (_ : nat) (_ : SendMailCall Auth) : error := None.

Definition date : string := "Sun, 01 Nov 2026 09:30:00 +0000".

(** The message of the spec's example, built through the package's
    interface on an email with encoder [enc]. *)
Definition build_example : M Auth unit :=
  AddRecipient Auth "a@x.com" ;;
  setFrom Auth "b@x.com" ;;
  setSubject Auth "Hi" ;;
  AddTextBody Auth "Hello".

Definition example_world (enc : TransferEncoder)
    (reply : nat -> SendMailCall Auth -> error) : World Auth :=
  execState build_example (mkWorld Auth (NewEmailWithEncoder enc) date reply []).

End Concrete.

(** ** Reading a folded header back *)

(** Every piece followed by [sep]. *)
Fixpoint glue (sep : string) (pieces : list string) : string :=
  match pieces with
  | [] => ""
  | x :: rest => x ++ sep ++ glue sep rest
  end.

(** Re-joining a folded header: every continuation marker (CR, LF, space)
    is taken out. *)
Fixpoint rejoin (s : string) : string :=
  match s with
  | "" => ""
  | String c s' =>
      match s' with
      | String c2 (String c3 rest) =>
          if (Ascii.eqb c CR && Ascii.eqb c2 LF && Ascii.eqb c3 SP)%bool
          then rejoin rest
          else String c (rejoin s')
      | _ => String c (rejoin s')
      end
  end.

(** A value with every run of spaces inside it made a single space. *)
Fixpoint normalize_spaces (s : string) : string :=
  match s with
  | "" => ""
  | String c rest =>
      match rest with
      | String c2 _ =>
          if (is_space c && is_space c2)%bool then normalize_spaces rest
          else String c (normalize_spaces rest)
      | "" => String c ""
      end
  end.

(** A line without the blank at its end, if it has one. *)
Fixpoint trimBlank (l : string) : string :=
  match l with
  | "" => ""
  | String c rest =>
      match rest with
      | "" => if is_space c then "" else l
      | _ => String c (trimBlank rest)
      end
  end.

(** A line within the width, the blank at its end not counted; or one
    word of the value wider than the limit, alone; or the prefix alone. *)
Definition line_ok (maxLength : Z) (prefix s line : string) : Prop :=
  len (trimBlank line) <= maxLength
  \/ (exists w, In w (Split s SP) /\ maxLength < len w /\ trimBlank line = w)
  \/ line = prefix.

(** The line being built: within the width with its blank, or one word
    and its blank, or the prefix. *)
Definition building_ok (maxLength : Z) (prefix s line : string) : Prop :=
  len line <= maxLength
  \/ (exists w, In w (Split s SP) /\ line = w ++ " ")
  \/ line = prefix.

(** The spec's reading of the width rule: a line within the width, or a
    single word of the value longer than the limit, alone on its line (a
    blank at the end of the line is not counted). *)
Definition within_width (maxLength : Z) (s line : string) : Prop :=
  len (trimBlank line) <= maxLength
  \/ (exists w, In w (Split s SP) /\ maxLength < len w /\ trimBlank line = w).

(** The spec's reading of the round trip: the re-joined header is the
    prefix and the value with its runs of spaces made single (blanks
    before the final CRLF allowed). *)
Definition rejoins_normalized (prefix s : string) : Prop :=
  exists pad, forallb_string is_space pad = true
    /\ rejoin (foldString 78 prefix s) = prefix ++ normalize_spaces s ++ pad ++ CRLF.

(** The spec's reading of folding the empty value: one line, the prefix
    (blanks after it allowed) and the final CRLF. *)
Definition single_prefix_line (prefix : string) : Prop :=
  exists pad, forallb_string is_space pad = true
    /\ foldString 78 prefix "" = prefix ++ pad ++ CRLF.

(** ** More of the source, and what its lines are made of *)

(** [(e *formattedEmail) String()]: the buffer, as a string. *)
Definition formattedEmail_String (e : formattedEmail) : string := buffer e.

(** Every two neighbours of a list are related by [R]. *)
Fixpoint adjacent {A : Type} (R : A -> A -> Prop) (l : list A) : Prop :=
  match l with
  | a :: (b :: _) as rest => R a b /\ adjacent R rest
  | _ => True
  end.

(** The break between [line] and [next] was needed: [next] starts with a
    word of the value that, with its blank, did not fit on [line]. *)
Definition break_needed (maxLength : Z) (s line next : string) : Prop :=
  exists w rest,
    In w (Split s SP) /\ next = w ++ " " ++ rest
    /\ maxLength < len line + len w + 1.

(** The loop's state while the first line is being built, and after the
    first break. *)
Inductive grouped (prefix : string) (pre : list string)
  : list string * string * Z -> Prop :=
| grouped_first (g0 : list string) (n : Z) :
    pre = g0 ->
    grouped prefix pre ([], prefix ++ glue " " g0, n)
| grouped_later (g0 : list string) (gs : list (list string)) (g : list string) (n : Z) :
    g <> [] ->
    Forall (fun x => x <> []) gs ->
    pre = (g0 ++ List.concat gs ++ g)%list ->
    grouped prefix pre
      ((prefix ++ glue " " g0) :: map (glue " ") gs, glue " " g, n).

(** * Properties *)

(** ** Strings *)

Lemma append_assoc (a b c : string) : (a ++ b) ++ c = a ++ b ++ c.
Proof. induction a as [|x a IH]; simpl; [reflexivity | now rewrite IH]. Qed.

Lemma append_nil_r (a : string) : a ++ "" = a.
Proof. induction a as [|x a IH]; simpl; [reflexivity | now rewrite IH]. Qed.

Lemma length_append (a b : string) :
  String.length (a ++ b) = (String.length a + String.length b)%nat.
Proof. induction a as [|x a IH]; simpl; [reflexivity | now rewrite IH]. Qed.

Lemma len_append (a b : string) : len (a ++ b) = len a + len b.
Proof. unfold len. rewrite length_append. lia. Qed.

Lemma len_nonneg (a : string) : 0 <= len a.
Proof. unfold len. lia. Qed.

Lemma prefix_refl_append (p s : string) : String.prefix p (p ++ s) = true.
Proof.
  induction p as [|x p IH]; simpl.
  - now destruct s.
  - destruct (ascii_dec x x) as [_|ne]; [exact IH | now elim ne].
Qed.

Lemma forallb_string_append (p : ascii -> bool) (a b : string) :
  forallb_string p (a ++ b) = (forallb_string p a && forallb_string p b)%bool.
Proof.
  induction a as [|x a IH]; simpl; [reflexivity|].
  rewrite IH. now rewrite andb_assoc.
Qed.

Lemma glue_app (sep : string) (xs ys : list string) :
  glue sep (xs ++ ys) = glue sep xs ++ glue sep ys.
Proof.
  induction xs as [|x xs IH]; simpl; [reflexivity|].
  now rewrite IH, !append_assoc.
Qed.

Lemma Join_snoc (sep : string) (xs : list string) (x : string) :
  Join (xs ++ [x]) sep = glue sep xs ++ x.
Proof.
  unfold Join. induction xs as [|y xs IH]; [reflexivity|].
  change (glue sep (y :: xs) ++ x) with ((y ++ sep ++ glue sep xs) ++ x).
  rewrite !append_assoc, <- IH.
  destruct xs; reflexivity.
Qed.

(** ** [strings.Split] *)

Lemma Split_not_nil (s : string) (sep : ascii) : Split s sep <> [].
Proof.
  destruct s as [|c s]; simpl; [discriminate|].
  destruct (Ascii.eqb c sep); [discriminate|].
  destruct (Split s sep); discriminate.
Qed.

(** Putting the separator back after every piece gives the string and one
    more separator. *)
Lemma glue_Split (s : string) :
  glue " " (Split s SP) = s ++ " ".
Proof.
  induction s as [|c s IH]; simpl; [reflexivity|].
  destruct (Ascii.eqb_spec c SP) as [->|ne].
  - simpl. now rewrite IH.
  - destruct (Split s SP) as [|w ws] eqn:E.
    + now elim (Split_not_nil s SP).
    + simpl in *. now rewrite IH.
Qed.

Lemma Split_forallb (p : ascii -> bool) (s : string) (sep : ascii) :
  forallb_string p s = true ->
  forall w, In w (Split s sep) -> forallb_string p w = true.
Proof.
  induction s as [|c s IH]; simpl.
  - intros _ w [<-|[]]. reflexivity.
  - intros H w Hw. apply andb_true_iff in H as [Hc Hs].
    destruct (Ascii.eqb c sep).
    + destruct Hw as [<-|Hw]; [reflexivity | now apply IH].
    + destruct (Split s sep) as [|v vs].
      * destruct Hw as [<-|[]]. simpl. now rewrite Hc.
      * destruct Hw as [<-|Hw].
        -- simpl. rewrite Hc. apply IH; [assumption | now left].
        -- apply IH; [assumption | now right].
Qed.

(** ** The header folder: what its loop keeps true *)

Section Folding.

Variable maxLength : Z.

(** [foldLine] runs alongside [foldWord]: [foldedBuffer] is the finished
    lines, each followed by the continuation marker. *)
Lemma foldWord_foldLine (ws : list string) :
  forall (st : foldState) (done : list string),
    foldedBuffer st = glue (CRLF ++ " ") done ->
    let st' := fold_left (foldWord maxLength) ws st in
    let '(done', line', n') :=
      fold_left (foldLine maxLength) ws (done, lineBuffer st, lineLength st) in
    foldedBuffer st' = glue (CRLF ++ " ") done'
    /\ lineBuffer st' = line' /\ lineLength st' = n'.
Proof.
  induction ws as [|w ws IH]; intros st done Hdone; cbn [fold_left].
  - auto.
  - assert (exists done1,
              foldLine maxLength (done, lineBuffer st, lineLength st) w
              = (done1, lineBuffer (foldWord maxLength st w),
                 lineLength (foldWord maxLength st w))
              /\ foldedBuffer (foldWord maxLength st w)
                 = glue (CRLF ++ " ") done1) as (done1 & -> & H1).
    { unfold foldLine, foldWord.
      destruct (len w + lineLength st + 1 <=? maxLength); cbn [foldedBuffer lineBuffer lineLength].
      - exists done. split; [reflexivity | exact Hdone].
      - exists (done ++ [lineBuffer st])%list. split; [reflexivity|].
        rewrite glue_app, Hdone. cbn [glue].
        now rewrite append_nil_r. }
    apply IH. exact H1.
Qed.

Lemma foldString_foldLines (prefix s : string) :
  foldString maxLength prefix s
  = Join (foldLines maxLength prefix s) (CRLF ++ " ") ++ CRLF.
Proof.
  unfold foldString, foldLines.
  pose proof (foldWord_foldLine (Split s SP) (mkFold "" prefix (len prefix)) []
                eq_refl) as H.
  simpl in H.
  destruct (fold_left (foldLine maxLength) (Split s SP) ([], prefix, len prefix))
    as [[done line] n].
  destruct H as (Hf & Hl & _).
  now rewrite Join_snoc, Hf, Hl, append_assoc.
Qed.

Lemma len_trimBlank (l : string) : len (trimBlank l) <= len l.
Proof.
  unfold len. apply inj_le.
  induction l as [|c l IH]; simpl; [lia|].
  destruct l as [|c' l'].
  - destruct (is_space c); simpl; lia.
  - simpl in *. lia.
Qed.

Lemma trimBlank_word (w : string) : trimBlank (w ++ " ") = w.
Proof.
  induction w as [|c w IH]; [reflexivity|].
  simpl. simpl in IH. rewrite IH.
  destruct w; reflexivity.
Qed.

Lemma building_line_ok (prefix s line : string) :
  building_ok maxLength prefix s line -> line_ok maxLength prefix s line.
Proof.
  intros [H | [(w & Hin & ->) | ->]].
  - left. pose proof (len_trimBlank line). lia.
  - unfold line_ok. rewrite trimBlank_word.
    destruct (Z_le_gt_dec (len w) maxLength) as [Hle|Hgt].
    + left. exact Hle.
    + right. left. exists w. split; [assumption | split; [lia | reflexivity]].
  - right. right. reflexivity.
Qed.

Lemma foldLine_ok (prefix s : string) (ws : list string) :
  forall done line n,
    (forall w, In w ws -> In w (Split s SP)) ->
    Forall (line_ok maxLength prefix s) done ->
    building_ok maxLength prefix s line ->
    n = len line ->
    let '(done', line', n') := fold_left (foldLine maxLength) ws (done, line, n) in
    Forall (line_ok maxLength prefix s) done' /\ building_ok maxLength prefix s line' /\ n' = len line'.
Proof.
  induction ws as [|w ws IH]; intros done line n Hws Hdone Hline Hn; simpl.
  - auto.
  - destruct (len w + n + 1 <=? maxLength) eqn:E.
    + apply IH.
      * intros v Hv. apply Hws. now right.
      * exact Hdone.
      * left. apply Z.leb_le in E. rewrite !len_append.
        change (len " ") with 1. lia.
      * rewrite !len_append. change (len " ") with 1. lia.
    + apply IH.
      * intros v Hv. apply Hws. now right.
      * apply Forall_app. split; [exact Hdone|].
        constructor; [|constructor]. now apply building_line_ok.
      * right. left. exists w. split; [apply Hws; now left | reflexivity].
      * rewrite len_append. reflexivity.
Qed.

Lemma foldLines_ok (prefix s : string) :
  Forall (line_ok maxLength prefix s) (foldLines maxLength prefix s).
Proof.
  unfold foldLines.
  pose proof (foldLine_ok prefix s (Split s SP) [] prefix (len prefix)
                (fun _ H => H) (Forall_nil _)
                (or_intror (or_intror eq_refl)) eq_refl) as H.
  destruct (fold_left (foldLine maxLength) (Split s SP) ([], prefix, len prefix))
    as [[done line] n].
  destruct H as (Hd & Hl & _).
  apply Forall_app. split; [exact Hd|].
  constructor; [|constructor]. now apply building_line_ok.
Qed.

End Folding.

(** ** Re-joining *)

Lemma rejoin_keeps (a b : string) :
  forallb_string not_CR a = true -> rejoin (a ++ b) = a ++ rejoin b.
Proof.
  induction a as [|c a IH]; intros H; [reflexivity|].
  cbn [forallb_string] in H. apply andb_true_iff in H as [Hc Ha].
  specialize (IH Ha).
  change (String c a ++ b) with (String c (a ++ b)).
  change (String c a ++ rejoin b) with (String c (a ++ rejoin b)).
  rewrite <- IH. cbn [rejoin].
  unfold not_CR in Hc. apply negb_true_iff in Hc. rewrite Hc. cbn [andb].
  destruct (a ++ b) as [|c2 [|c3 r]]; reflexivity.
Qed.

Lemma rejoin_marker (b : string) : rejoin (CRLF ++ " " ++ b) = rejoin b.
Proof. reflexivity. Qed.

Lemma rejoin_fold (maxLength : Z) (ws : list string) :
  forall (st : foldState) (A : string),
    (forall w, In w ws -> forallb_string not_CR w = true) ->
    (forall X, rejoin (foldedBuffer st ++ lineBuffer st ++ X) = A ++ rejoin X) ->
    forall X,
      let st' := fold_left (foldWord maxLength) ws st in
      rejoin (foldedBuffer st' ++ lineBuffer st' ++ X)
      = A ++ glue " " ws ++ rejoin X.
Proof.
  induction ws as [|w ws IH]; intros st A Hws Hst X; cbn [fold_left glue].
  - apply Hst.
  - assert (Hw : forallb_string not_CR (w ++ " ") = true).
    { rewrite forallb_string_append, (Hws w (or_introl eq_refl)). reflexivity. }
    rewrite (IH (foldWord maxLength st w) (A ++ w ++ " ")).
    + now rewrite !append_assoc.
    + intros v Hv. apply Hws. now right.
    + intros Y. unfold foldWord.
      destruct (len w + lineLength st + 1 <=? maxLength);
        cbn [foldedBuffer lineBuffer].
      * rewrite !append_assoc.
        rewrite <- (append_assoc w " " Y), Hst, rejoin_keeps by exact Hw.
        now rewrite !append_assoc.
      * rewrite !append_assoc.
        rewrite Hst, rejoin_marker.
        rewrite <- (append_assoc w " " Y), rejoin_keeps by exact Hw.
        now rewrite !append_assoc.
Qed.

Lemma rejoin_fold_exact (maxLength : Z) (prefix s : string) :
  forallb_string not_CR prefix = true ->
  forallb_string not_CR s = true ->
  rejoin (foldString maxLength prefix s) = prefix ++ s ++ " " ++ CRLF.
Proof.
  intros Hp Hs. unfold foldString.
  rewrite (rejoin_fold maxLength (Split s SP) (mkFold "" prefix (len prefix)) prefix).
  - rewrite glue_Split. now rewrite !append_assoc.
  - intros w Hw. now apply (Split_forallb not_CR s SP).
  - intros X. exact (rejoin_keeps prefix X Hp).
Qed.

(** ** The claims about the header folder *)

(** C3, as the spec words it, fails.  With a prefix of several words that
    is itself longer than 78 bytes the folder emits the prefix as a line of
    its own, wider than the limit, though the value has no long word.  And
    a word of exactly 78 bytes, which is not longer than the limit, goes on
    a line of 79 bytes, the word and the blank after it. *)
Lemma foldString_width_counterexample :
  let prefix := "X-Remark (a field name with a comment, long enough to pass the width limit alone): " in
  let word := "xxxxxxxxxxxxxxxxxxxxxxxxxxxxxxxxxxxxxxxxxxxxxxxxxxxxxxxxxxxxxxxxxxxxxxxxxxxxxx" in
  (foldLines 78 prefix "v1" = [prefix; "v1 "]
   /\ 78 < len (trimBlank prefix)
   /\ ~ Forall (within_width 78 "v1") (foldLines 78 prefix "v1"))
  /\ (foldLines 78 "Subject: " word = ["Subject: "; word ++ " "]
      /\ len word = 78
      /\ len (word ++ " ") = 79).
Proof.
  cbv zeta. split; [|repeat split].
  split; [reflexivity|]. split; [reflexivity|].
  intros H. apply Forall_inv in H.
  destruct H as [H | (w & Hin & Hw & _)].
  - vm_compute in H. now apply H.
  - destruct Hin as [<- | []]. vm_compute in Hw. discriminate.
Qed.

(** C3 (amended): the output of the folder at width 78 is its lines joined
    by CRLF and a space, and ended by CRLF; no line, the blank at its end
    not counted, is longer than 78 bytes, except a line that is one word of
    the value longer than 78, unsplit and alone, and except the prefix
    alone on the first line when the prefix is longer than 78. *)
Theorem foldString_line_width (prefix s : string) :
  foldString 78 prefix s = Join (foldLines 78 prefix s) (CRLF ++ " ") ++ CRLF
  /\ forall line, In line (foldLines 78 prefix s) ->
       len (trimBlank line) <= 78
       \/ (exists w, In w (Split s SP) /\ 78 < len w /\ trimBlank line = w)
       \/ (line = prefix /\ 78 < len prefix).
Proof.
  split; [apply foldString_foldLines|].
  intros line Hin.
  pose proof (foldLines_ok 78 prefix s) as H.
  rewrite Forall_forall in H. destruct (H line Hin) as [H1 | [H2 | H3]].
  - now left.
  - right. now left.
  - destruct (Z_le_gt_dec (len (trimBlank line)) 78) as [Hle|Hgt]; [now left|].
    right. right. split; [assumption|].
    pose proof (len_trimBlank line). subst line. lia.
Qed.

(** C7, as the spec words it, fails: with a prefix of 78 bytes the empty
    value does not fit on the prefix's line, and the folder emits two
    lines, the prefix and a continuation line holding a blank. *)
Lemma foldString_empty_counterexample :
  let prefix := "X-Header-Field-Name-Of-Exactly-Seventy-Eight-Bytes-With-Colon-And-Space-Last: " in
  len prefix = 78
  /\ foldLines 78 prefix "" = [prefix; " "]
  /\ foldString 78 prefix "" = prefix ++ CRLF ++ "  " ++ CRLF
  /\ ~ single_prefix_line prefix.
Proof.
  cbv zeta. split; [reflexivity|]. split; [reflexivity|]. split; [reflexivity|].
  intros (pad & Hpad & H).
  vm_compute in H.
  repeat match type of H with
         | String _ _ = String _ _ =>
             let H' := fresh in injection H as _ H'; rename H' into H
         end.
  destruct pad as [|c pad].
  - discriminate H.
  - injection H as Hc _. subst c. discriminate Hpad.
Qed.

(** C7 (amended): for every prefix of at most 77 bytes, folding the empty
    value gives one line and no continuation: the prefix, nothing but
    blanks after it, and the final CRLF. *)
Theorem foldString_empty_value (prefix : string) :
  len prefix <= 77 ->
  exists pad,
    forallb_string is_space pad = true
    /\ foldLines 78 prefix "" = [prefix ++ pad]
    /\ foldString 78 prefix "" = prefix ++ pad ++ CRLF.
Proof.
  intros H. exists " ". split; [reflexivity|].
  assert (E : (0 + len prefix + 1 <=? 78) = true) by (apply Z.leb_le; lia).
  unfold foldString, foldLines. cbn [Split fold_left].
  unfold foldWord, foldLine. cbn [lineLength]. change (len "") with 0.
  rewrite E. cbn [foldedBuffer lineBuffer]. split; [reflexivity|].
  change ("" ++ (prefix ++ "" ++ " ") ++ CRLF) with ((prefix ++ " ") ++ CRLF).
  apply append_assoc.
Qed.

Lemma foldString_empty_value_witness :
  len "To: " <= 77 /\
  exists pad,
    forallb_string is_space pad = true
    /\ foldLines 78 "To: " "" = ["To: " ++ pad]
    /\ foldString 78 "To: " "" = "To: " ++ pad ++ CRLF.
Proof.
  split; [vm_compute; discriminate|].
  apply (foldString_empty_value "To: "). vm_compute. discriminate.
Defined.

(** C5, as the spec words it, fails: a run of two spaces in the value
    comes back as two spaces, not as one.  And a value that itself holds
    CR, LF and a space loses them with the markers. *)
Lemma rejoin_counterexample :
  (rejoin (foldString 78 "Subject: " "a  b") = "Subject: a  b " ++ CRLF
   /\ normalize_spaces "a  b" = "a b"
   /\ ~ rejoins_normalized "Subject: " "a  b")
  /\ rejoin (foldString 78 "Subject: " ("a" ++ CRLF ++ " b")) = "Subject: ab " ++ CRLF.
Proof.
  split; [|reflexivity].
  split; [reflexivity|]. split; [reflexivity|].
  intros (pad & _ & H). vm_compute in H. discriminate H.
Qed.

(** C5 (amended): for every prefix and value without a carriage return,
    taking the continuation markers (CR, LF, space) out of the folder's
    output gives the prefix, then the value exactly as it was, runs of
    spaces kept, then nothing but blanks and the final CRLF. *)
Theorem rejoin_foldString (prefix s : string) :
  forallb_string not_CR prefix = true ->
  forallb_string not_CR s = true ->
  exists pad,
    forallb_string is_space pad = true
    /\ rejoin (foldString 78 prefix s) = prefix ++ s ++ pad ++ CRLF.
Proof.
  intros Hp Hs. exists " ". split; [reflexivity|].
  now apply rejoin_fold_exact.
Qed.

Lemma rejoin_foldString_witness :
  forallb_string not_CR "Subject: " = true
  /\ forallb_string not_CR "a  b" = true
  /\ exists pad,
       forallb_string is_space pad = true
       /\ rejoin (foldString 78 "Subject: " "a  b") = "Subject: " ++ "a  b" ++ pad ++ CRLF.
Proof.
  split; [reflexivity|]. split; [reflexivity|].
  apply (rejoin_foldString "Subject: " "a  b"); reflexivity.
Defined.

(** ** The writers *)

Lemma writes_ret : writes (ret tt) "".
Proof. intros [b m e]. unfold ret. cbn [buffer boundary fencoder]. now rewrite append_nil_r. Qed.

Lemma writes_WriteString (s : string) : writes (WriteString s) s.
Proof. intros e. reflexivity. Qed.

Lemma writes_bind (m k : State formattedEmail unit) (a b : string) :
  writes m a -> writes k b -> writes (m ;; k) (a ++ b).
Proof.
  intros Hm Hk e. unfold bind. rewrite Hm, Hk.
  cbn [buffer boundary fencoder]. now rewrite append_assoc.
Qed.

Lemma writes_addHeader (field value : string) :
  writes (addHeader field value) (headerLine field value).
Proof.
  unfold addHeader, headerLine.
  destruct (value =? "")%string; cbn [negb].
  - apply writes_ret.
  - apply writes_WriteString.
Qed.

Lemma addBody_run (body : emailBody) (e : formattedEmail) :
  addBody body e
  = (tt, mkFormatted (buffer e ++ bodyPart (boundary e) (fencoder e) body)
                     (boundary e) (fencoder e)).
Proof.
  unfold addBody. unfold bind at 1. unfold get.
  apply (writes_bind _ _ (boundary e ++ CRLF)); [apply writes_WriteString|].
  apply writes_bind; [apply writes_addHeader|].
  apply writes_bind; [apply writes_addHeader|].
  apply writes_bind; [apply writes_WriteString|].
  apply writes_bind; apply writes_WriteString.
Qed.

Lemma forEach_addBody_run (bodies : list emailBody) :
  forall e,
    forEach bodies addBody e
    = (tt, mkFormatted
             (buffer e ++ glue "" (map (bodyPart (boundary e) (fencoder e)) bodies))
             (boundary e) (fencoder e)).
Proof.
  induction bodies as [|b bodies IH]; intros e; cbn [forEach map glue].
  - apply writes_ret.
  - unfold bind. rewrite addBody_run, IH. cbn [buffer boundary fencoder].
    now rewrite !append_assoc.
Qed.

Lemma foldString_starts (maxLength : Z) (prefix s : string) :
  HasPrefix (foldString maxLength prefix s) prefix = true.
Proof.
  unfold HasPrefix. rewrite foldString_foldLines.
  unfold foldLines.
  pose proof (Split_not_nil s SP) as Hne.
  destruct (Split s SP) as [|w ws]; [now elim Hne|]. clear Hne.
  cbn [fold_left].
  assert (Hgen : forall ws st,
             (exists t rest, (let '(done, line, _) := st in (done ++ [line])%list)
                             = (prefix ++ t) :: rest) ->
             exists t rest,
               (let '(done, line, _) := fold_left (foldLine maxLength) ws st in
                (done ++ [line])%list) = (prefix ++ t) :: rest).
  { clear. induction ws as [|v ws IH]; intros st Hst; [exact Hst|].
    cbn [fold_left]. apply IH.
    destruct st as [[done line] n]. destruct Hst as (t & rest & Hst).
    unfold foldLine. destruct (len v + n + 1 <=? maxLength).
    - destruct done as [|d done]; cbn [app] in *.
      + injection Hst as -> <-. exists (t ++ v ++ " "), [].
        now rewrite append_assoc.
      + injection Hst as -> <-. eexists t, _. reflexivity.
    - destruct done as [|d done]; cbn [app] in *.
      + injection Hst as -> <-. eexists t, _. reflexivity.
      + injection Hst as -> <-. eexists t, _. reflexivity. }
  destruct (Hgen ws (foldLine maxLength ([], prefix, len prefix) w)) as (t & rest & E).
  { unfold foldLine. destruct (len w + len prefix + 1 <=? maxLength); cbn [app].
    - exists (w ++ " "), []. reflexivity.
    - exists "", [w ++ " "]. now rewrite append_nil_r. }
  rewrite E. unfold Join. cbn [String.concat].
  destruct rest; rewrite !append_assoc; apply prefix_refl_append.
Qed.

Lemma headerLine_empty_iff (field value : string) :
  headerLine field value = "" <-> value = "".
Proof.
  unfold headerLine. destruct (String.eqb_spec value "") as [->|ne].
  - split; reflexivity.
  - split; [|intros ->; now elim ne].
    intros H. pose proof (foldString_starts 78 (field ++ ": ") value) as Hp.
    rewrite H in Hp. destruct field; discriminate Hp.
Qed.

(** ** The message identifier *)

Lemma length_string_of_list_ascii (l : list ascii) :
  String.length (string_of_list_ascii l) = List.length l.
Proof. induction l as [|c l IH]; simpl; [reflexivity | now rewrite IH]. Qed.

Lemma sha1_Sum_length (data : string) : String.length (sha1.Sum data) = 20%nat.
Proof. unfold sha1.Sum. cbv zeta. now rewrite length_string_of_list_ascii. Qed.

Lemma Sprintf_x_length (b : string) :
  String.length (Sprintf_x b) = (2 * String.length b)%nat.
Proof. induction b as [|c b IH]; simpl; [reflexivity | rewrite IH; lia]. Qed.

Lemma hexDigit_isHexDigit (n : nat) : (n < 16)%nat -> isHexDigit (hexDigit n) = true.
Proof.
  intros H.
  do 16 (destruct n as [|n]; [reflexivity|]). lia.
Qed.

Lemma Sprintf_x_hex (b : string) : forallb_string isHexDigit (Sprintf_x b) = true.
Proof.
  induction b as [|c b IH]; [reflexivity|].
  cbn [Sprintf_x forallb_string]. rewrite IH.
  pose proof (nat_ascii_bounded c) as Hc.
  rewrite !hexDigit_isHexDigit; [reflexivity | |].
  - apply Nat.mod_upper_bound. discriminate.
  - apply Nat.Div0.div_lt_upper_bound. exact Hc.
Qed.

Lemma writes_then (m k : State formattedEmail unit) (out : string) (e : formattedEmail) :
  writes m out ->
  (m ;; k) e = k (mkFormatted (buffer e ++ out) (boundary e) (fencoder e)).
Proof. intros Hm. unfold bind. now rewrite Hm. Qed.

(** ** The methods of [*Email] *)

Section Methods.

Variable Sprintf_v : Email -> string.
Variable Auth : Type.

Lemma MessageID_run (w : World Auth) :
  MessageID Sprintf_v Auth w = (Sprintf_x (sha1.Sum (Sprintf_v (this w))), w).
Proof. reflexivity. Qed.

(** The whole output of [Format], header lines and parts; the world is
    left as it was. *)
Lemma Format_run (w : World Auth) :
  let email := this w in
  let boundary := "=_" ++ evalState (MessageID Sprintf_v Auth) w in
  Format Sprintf_v Auth w =
  (headerLine "To" (Join (To email) ", ")
   ++ headerLine "Cc" (Join (Cc email) ", ")
   ++ headerLine "Bcc" (Join (Bcc email) ", ")
   ++ headerLine "From" (From email)
   ++ headerLine "Subject" (Subject email)
   ++ headerLine "Date" (clock w)
   ++ headerLine "Content-Type"
        ("multipart/alternative; boundary=" ++ DQUOTE ++ boundary ++ DQUOTE)
   ++ headerLine "MIME-Version" "1.0"
   ++ glue "" (map (bodyPart (CRLF ++ "--" ++ boundary) (encoder email))
                   (emailBodies email)),
   w).
Proof.
  cbv zeta. unfold Format.
  unfold bind at 1, gets at 1. unfold bind at 1. rewrite MessageID_run.
  unfold bind at 1, time_Now_RFC1123Z, gets at 1. unfold ret at 1.
  f_equal. unfold evalState. rewrite MessageID_run. cbn [fst].
  unfold execState.
  do 8 (rewrite (writes_then _ _ _ _ (writes_addHeader _ _));
        cbn [buffer boundary fencoder]).
  rewrite forEach_addBody_run. cbn [snd buffer boundary fencoder].
  cbn [append]. now rewrite !append_assoc.
Qed.

(** C1: [Format] writes the top-level headers in the order To, Cc, Bcc,
    From, Subject, Date, Content-Type, MIME-Version, before every part; the
    line of a header is there exactly when its value is not empty, and is
    then the value folded behind the field name, a colon and a space. *)
Theorem Format_headers (w : World Auth) :
  let email := this w in
  let boundary := "=_" ++ evalState (MessageID Sprintf_v Auth) w in
  let headers :=
    [("To", Join (To email) ", ");
     ("Cc", Join (Cc email) ", ");
     ("Bcc", Join (Bcc email) ", ");
     ("From", From email);
     ("Subject", Subject email);
     ("Date", clock w);
     ("Content-Type",
      "multipart/alternative; boundary=" ++ DQUOTE ++ boundary ++ DQUOTE);
     ("MIME-Version", "1.0")] in
  evalState (Format Sprintf_v Auth) w
  = glue "" (map (fun h => headerLine (fst h) (snd h)) headers)
    ++ glue "" (map (bodyPart (CRLF ++ "--" ++ boundary) (encoder email))
                    (emailBodies email))
  /\ forall field value,
       (headerLine field value = "" <-> value = "")
       /\ (value <> "" ->
           headerLine field value = foldString 78 (field ++ ": ") value
           /\ HasPrefix (headerLine field value) (field ++ ": ") = true).
Proof.
  cbv zeta. split.
  - unfold evalState. rewrite Format_run. cbn [fst snd map glue].
    cbn [append]. now rewrite !append_assoc.
  - intros field value. split; [apply headerLine_empty_iff|].
    intros ne. unfold headerLine.
    destruct (String.eqb_spec value "") as [->|_]; [now elim ne|].
    split; [reflexivity | apply foldString_starts].
Qed.

(** C2 (amended): after the headers [Format] writes one part for each body,
    in the order of the list, to whose end [AddBody] appends; a part is the
    boundary marker (CRLF, two dashes, the boundary) and CRLF, the
    Content-Type header of the part's mime type unless that is empty, the
    Content-Transfer-Encoding header of the encoder's label unless that is
    empty, a blank line, what the encoder makes of the body text, and
    CRLF. *)
Theorem Format_parts (w : World Auth) :
  let email := this w in
  let enc := encoder email in
  let boundary := "=_" ++ evalState (MessageID Sprintf_v Auth) w in
  let headers :=
    [("To", Join (To email) ", ");
     ("Cc", Join (Cc email) ", ");
     ("Bcc", Join (Bcc email) ", ");
     ("From", From email);
     ("Subject", Subject email);
     ("Date", clock w);
     ("Content-Type",
      "multipart/alternative; boundary=" ++ DQUOTE ++ boundary ++ DQUOTE);
     ("MIME-Version", "1.0")] in
  let part (body : emailBody) :=
    ((CRLF ++ "--" ++ boundary) ++ CRLF)
    ++ (if (mimeType body =? "")%string then ""
        else foldString 78 "Content-Type: " (mimeType body))
    ++ (if (TransferEncodingType enc =? "")%string then ""
        else foldString 78 "Content-Transfer-Encoding: " (TransferEncodingType enc))
    ++ CRLF
    ++ Encode enc (bodyText body)
    ++ CRLF in
  evalState (Format Sprintf_v Auth) w
  = glue "" (map (fun h => headerLine (fst h) (snd h)) headers)
    ++ glue "" (map part (emailBodies email))
  /\ forall mimeType body,
       emailBodies (this (execState (AddBody Auth mimeType body) w))
       = (emailBodies email ++ [mkBody mimeType body])%list.
Proof.
  cbv zeta. split; [|reflexivity].
  unfold evalState. rewrite Format_run. cbn [fst snd map glue].
  cbn [append]. now rewrite !append_assoc.
Qed.

(** C4: the output of [Format], the message identifier and the boundary
    depend on the message and the clock only, so two calls on the same
    message at the same clock give the same bytes, also one call after the
    other; the identifier is the forty lower-case hexadecimal digits of the
    SHA-1 digest of the rendering of the whole message. *)
Theorem Format_deterministic (w1 w2 : World Auth) :
  this w1 = this w2 ->
  clock w1 = clock w2 ->
  evalState (Format Sprintf_v Auth) w1 = evalState (Format Sprintf_v Auth) w2
  /\ evalState (MessageID Sprintf_v Auth) w1 = evalState (MessageID Sprintf_v Auth) w2
  /\ "=_" ++ evalState (MessageID Sprintf_v Auth) w1
     = "=_" ++ evalState (MessageID Sprintf_v Auth) w2
  /\ evalState (first <- Format Sprintf_v Auth ;;
                second <- Format Sprintf_v Auth ;;
                ret (first, second)) w1
     = (evalState (Format Sprintf_v Auth) w1, evalState (Format Sprintf_v Auth) w1)
  /\ evalState (MessageID Sprintf_v Auth) w1
     = Sprintf_x (sha1.Sum (Sprintf_v (this w1)))
  /\ String.length (evalState (MessageID Sprintf_v Auth) w1) = 40%nat
  /\ forallb_string isHexDigit (evalState (MessageID Sprintf_v Auth) w1) = true.
Proof.
  intros He Hc.
  assert (Hid : evalState (MessageID Sprintf_v Auth) w1
                = evalState (MessageID Sprintf_v Auth) w2).
  { unfold evalState. rewrite !MessageID_run. cbn [fst]. now rewrite He. }
  split; [|split; [exact Hid|split; [now rewrite Hid|split; [|split; [|split]]]]].
  - unfold evalState. rewrite !Format_run. cbn [fst].
    fold (evalState (MessageID Sprintf_v Auth) w1).
    fold (evalState (MessageID Sprintf_v Auth) w2).
    now rewrite Hid, He, Hc.
  - unfold evalState, bind. rewrite !Format_run. reflexivity.
  - reflexivity.
  - unfold evalState. rewrite MessageID_run. cbn [fst].
    now rewrite Sprintf_x_length, sha1_Sum_length.
  - unfold evalState. rewrite MessageID_run. cbn [fst]. apply Sprintf_x_hex.
Qed.

(** C8: [Send] calls the relay once, with the address and credentials it
    was given, the sender, the To list and the output of [Format], and
    returns the relay's answer as it is; the message is left as it was. *)
Theorem Send_delegates (addr : string) (a : Auth) (w : World Auth) :
  let call :=
    mkCall Auth addr a (From (this w)) (To (this w))
           (evalState (Format Sprintf_v Auth) w) in
  let answer := smtp_reply w (List.length (smtp_calls w)) call in
  Send Sprintf_v Auth addr a w
  = (answer, mkWorld Auth (this w) (clock w) (smtp_reply w) (smtp_calls w ++ [call])%list)
  /\ (evalState (Send Sprintf_v Auth addr a) w = None <-> answer = None).
Proof.
  cbv zeta.
  assert (H : Send Sprintf_v Auth addr a w
              = smtp_SendMail Auth addr a (From (this w)) (To (this w))
                  (evalState (Format Sprintf_v Auth) w) w).
  { unfold Send, evalState. unfold bind at 1, gets at 1. unfold bind at 1, gets at 1.
    unfold bind. now rewrite Format_run. }
  split.
  - rewrite H. reflexivity.
  - unfold evalState at 1. rewrite H. reflexivity.
Qed.

(** C9: [Format] and [MessageID] change nothing: the To, Cc and Bcc lists,
    the sender, the subject, the bodies and the encoder of the message are
    after the call what they were before, and so is everything else. *)
Theorem Format_read_only (w : World Auth) :
  let after_Format := execState (Format Sprintf_v Auth) w in
  let after_MessageID := execState (MessageID Sprintf_v Auth) w in
  (To (this after_Format) = To (this w)
   /\ Cc (this after_Format) = Cc (this w)
   /\ Bcc (this after_Format) = Bcc (this w)
   /\ From (this after_Format) = From (this w)
   /\ Subject (this after_Format) = Subject (this w)
   /\ emailBodies (this after_Format) = emailBodies (this w)
   /\ encoder (this after_Format) = encoder (this w))
  /\ after_Format = w
  /\ this after_MessageID = this w
  /\ after_MessageID = w.
Proof.
  cbv zeta. unfold execState. rewrite Format_run, MessageID_run. cbn [snd].
  repeat split.
Qed.

End Methods.

(** C10: [FormatMailbox] gives back the address when the name is empty,
    and otherwise the name, a space, and the address in angle brackets. *)
Theorem FormatMailbox_spec (address name : string) :
  FormatMailbox address "" = address
  /\ (name <> "" -> FormatMailbox address name = name ++ " <" ++ address ++ ">").
Proof.
  split; [reflexivity|]. intros ne. unfold FormatMailbox.
  destruct (String.eqb_spec name "") as [->|_]; [now elim ne | reflexivity].
Qed.

Lemma FormatMailbox_spec_witness :
  "Ann" <> ""
  /\ FormatMailbox "ann@x.com" "" = "ann@x.com"
  /\ FormatMailbox "ann@x.com" "Ann" = "Ann <ann@x.com>".
Proof.
  split; [discriminate|].
  destruct (FormatMailbox_spec "ann@x.com" "Ann") as [H0 H1].
  split; [exact H0 | apply H1; discriminate].
Defined.

(** ** The spec's example message *)

(** Whatever the rendering behind the identifier, the encoder and the
    relay, the first three header lines of the example end in a blank
    before their CRLF. *)
Lemma example_headers (Sprintf_v : Email -> string) (enc : TransferEncoder)
    (reply : nat -> SendMailCall Concrete.Auth -> error) :
  HasPrefix
    (evalState (Format Sprintf_v Concrete.Auth) (Concrete.example_world enc reply))
    ("To: a@x.com " ++ CRLF ++ "From: b@x.com " ++ CRLF ++ "Subject: Hi " ++ CRLF)
  = true.
Proof.
  unfold evalState. rewrite Format_run. cbn [fst].
  change (this (Concrete.example_world enc reply))
    with (mkEmail ["a@x.com"] [] [] "b@x.com" "Hi"
                  [mkBody "text/plain; charset=utf-8" "Hello"] enc).
  cbn [To Cc Bcc From Subject].
  change (headerLine "To" (Join ["a@x.com"] ", ")) with ("To: a@x.com " ++ CRLF).
  change (headerLine "Cc" (Join [] ", ")) with "".
  change (headerLine "Bcc" (Join [] ", ")) with "".
  change (headerLine "From" "b@x.com") with ("From: b@x.com " ++ CRLF).
  change (headerLine "Subject" "Hi") with ("Subject: Hi " ++ CRLF).
  unfold HasPrefix.
  match goal with
  | |- String.prefix ?p (_ ++ "" ++ "" ++ _ ++ _ ++ ?rest) = true =>
      change (String.prefix p (p ++ rest) = true)
  end.
  apply prefix_refl_append.
Qed.

(** C6: on the spec's example message, with a quoted-printable encoder,
    [Format] gives one part, with the header
    [Content-Transfer-Encoding: quoted-printable] and the body [Hello];
    but every header line has a blank between its value and its CRLF, so
    the byte sequences the spec asks for ([To: a@x.com] and CRLF, and the
    like for From and Subject) are nowhere in the output. *)
Theorem example_Format :
  let out :=
    evalState (Format (Concrete.Sprintf_v Concrete.show) Concrete.Auth)
      (Concrete.example_world Concrete.quotedPrintable_NewEncoder Concrete.accepting) in
  let boundary := "=_88f58b177a43dbc39fe4855a4beb8aa3e3fe95aa" in
  out = "To: a@x.com " ++ CRLF
        ++ "From: b@x.com " ++ CRLF
        ++ "Subject: Hi " ++ CRLF
        ++ "Date: Sun, 01 Nov 2026 09:30:00 +0000 " ++ CRLF
        ++ "Content-Type: multipart/alternative; " ++ CRLF
        ++ " boundary=" ++ DQUOTE ++ boundary ++ DQUOTE ++ " " ++ CRLF
        ++ "MIME-Version: 1.0 " ++ CRLF
        ++ CRLF ++ "--" ++ boundary ++ CRLF
        ++ "Content-Type: text/plain; charset=utf-8 " ++ CRLF
        ++ "Content-Transfer-Encoding: quoted-printable " ++ CRLF
        ++ CRLF
        ++ "Hello" ++ CRLF
  /\ Contains out ("To: a@x.com" ++ CRLF) = false
  /\ Contains out ("From: b@x.com" ++ CRLF) = false
  /\ Contains out ("Subject: Hi" ++ CRLF) = false
  /\ Contains out ("To: a@x.com " ++ CRLF) = true
  /\ occurrences out (CRLF ++ "--" ++ boundary) = 1%nat
  /\ Contains out "Content-Transfer-Encoding: quoted-printable" = true.
Proof. vm_compute. repeat split. Qed.

Lemma Contains_app_r (a b sub : string) :
  Contains b sub = true -> Contains (a ++ b) sub = true.
Proof.
  intros H. induction a as [|c a IH]; [exact H|].
  cbn [append Contains]. rewrite IH. apply orb_true_r.
Qed.

(** C2, as the spec words it, fails: with an encoder whose label is empty
    the part has no Content-Transfer-Encoding header at all. *)
Lemma Format_parts_counterexample :
  let w := Concrete.example_world Concrete.unnamedEncoder Concrete.accepting in
  let out := evalState (Format (Concrete.Sprintf_v Concrete.show) Concrete.Auth) w in
  let boundary :=
    "=_" ++ evalState (MessageID (Concrete.Sprintf_v Concrete.show) Concrete.Auth) w in
  Contains out "Content-Transfer-Encoding" = false
  /\ forall headers,
       out <> headers
              ++ glue "" (map (bodyPart_as_specified (CRLF ++ "--" ++ boundary)
                                 (encoder (this w)))
                              (emailBodies (this w))).
Proof.
  cbv zeta.
  assert (Hno : Contains
                  (evalState (Format (Concrete.Sprintf_v Concrete.show) Concrete.Auth)
                     (Concrete.example_world Concrete.unnamedEncoder Concrete.accepting))
                  "Content-Transfer-Encoding" = false)
    by (vm_compute; reflexivity).
  split; [exact Hno|].
  intros headers H. rewrite H in Hno.
  rewrite Contains_app_r in Hno; [discriminate|].
  vm_compute. reflexivity.
Qed.

Lemma Format_deterministic_witness :
  let Sprintf_v := Concrete.Sprintf_v Concrete.show in
  let w1 :=
    Concrete.example_world Concrete.quotedPrintable_NewEncoder Concrete.refusing in
  let w2 := execState (Send Sprintf_v Concrete.Auth "mail.x.com:25" tt) w1 in
  this w1 = this w2
  /\ clock w1 = clock w2
  /\ smtp_calls w1 <> smtp_calls w2
  /\ evalState (Format Sprintf_v Concrete.Auth) w1
     = evalState (Format Sprintf_v Concrete.Auth) w2
  /\ evalState (MessageID Sprintf_v Concrete.Auth) w1
     = evalState (MessageID Sprintf_v Concrete.Auth) w2
  /\ "=_" ++ evalState (MessageID Sprintf_v Concrete.Auth) w1
     = "=_" ++ evalState (MessageID Sprintf_v Concrete.Auth) w2
  /\ evalState (first <- Format Sprintf_v Concrete.Auth ;;
                second <- Format Sprintf_v Concrete.Auth ;;
                ret (first, second)) w1
     = (evalState (Format Sprintf_v Concrete.Auth) w1,
        evalState (Format Sprintf_v Concrete.Auth) w1)
  /\ evalState (MessageID Sprintf_v Concrete.Auth) w1
     = Sprintf_x (sha1.Sum (Sprintf_v (this w1)))
  /\ String.length (evalState (MessageID Sprintf_v Concrete.Auth) w1) = 40%nat
  /\ forallb_string isHexDigit (evalState (MessageID Sprintf_v Concrete.Auth) w1) = true.
Proof.
  cbv zeta.
  split; [reflexivity|]. split; [reflexivity|]. split; [discriminate|].
  apply (Format_deterministic (Concrete.Sprintf_v Concrete.show) Concrete.Auth);
    reflexivity.
Defined.

(** ** Runs *)

Example foldString_short :
  foldString 78 "Subject: " "Hi" = "Subject: Hi " ++ CRLF.
Proof. reflexivity. Qed.

Example foldString_folds :
  foldString 20 "To: " "alice@example.org, bob@example.org"
  = "To: " ++ CRLF ++ " alice@example.org, " ++ CRLF ++ " bob@example.org " ++ CRLF.
Proof. reflexivity. Qed.

Example foldLines_long_word :
  foldLines 10 "K: " "averyveryverylongword x"
  = ["K: "; "averyveryverylongword "; "x "].
Proof. reflexivity. Qed.

Example Send_refused :
  evalState (Send (Concrete.Sprintf_v Concrete.show) Concrete.Auth "mail.x.com:25" tt)
    (Concrete.example_world Concrete.quotedPrintable_NewEncoder Concrete.refusing)
  = Some "554 transaction failed".
Proof. reflexivity. Qed.

Example qpEncode_escapes :
  Concrete.qpEncode 0 "1+1=2" = "1+1=3D2".
Proof. reflexivity. Qed.

Example sha1_abc :
  Sprintf_x (sha1.Sum "abc") = "a9993e364706816aba3e25717850c26c9cd0d89d".
Proof. vm_compute. reflexivity. Qed.

Example sha1_empty :
  Sprintf_x (sha1.Sum "") = "da39a3ee5e6b4b0d3255bfef95601890afd80709".
Proof. vm_compute. reflexivity. Qed.

Example sha1_two_blocks :
  Sprintf_x (sha1.Sum "abcdbcdecdefdefgefghfghighijhijkijkljklmklmnlmnomnopnopq")
  = "84983e441c3bd26ebaae4aa1f95129e5e54670f1".
Proof. vm_compute. reflexivity. Qed.

(** * Further properties of the source *)

(** ** The header folder keeps words whole *)

Lemma glue_snoc (sep : string) (g : list string) (w : string) :
  glue sep (g ++ [w]) = glue sep g ++ w ++ sep.
Proof. rewrite glue_app. cbn [glue]. now rewrite append_nil_r. Qed.

Lemma foldLine_grouped (maxLength : Z) (prefix : string) (ws : list string) :
  forall pre st,
    grouped prefix pre st ->
    grouped prefix (pre ++ ws)%list (fold_left (foldLine maxLength) ws st).
Proof.
  induction ws as [|w ws IH]; intros pre st H; cbn [fold_left].
  - now rewrite app_nil_r.
  - replace (pre ++ w :: ws)%list with ((pre ++ [w]) ++ ws)%list
      by (now rewrite <- app_assoc).
    apply IH. destruct H as [g0 n -> | g0 gs g n Hg Hgs ->]; unfold foldLine.
    + destruct (len w + n + 1 <=? maxLength).
      * rewrite append_assoc, <- glue_snoc. now constructor.
      * change ([] ++ [(prefix ++ glue " " g0)%string])%list
          with ((prefix ++ glue " " g0) :: map (glue " ") []).
        change (w ++ " ") with (glue " " [w]).
        apply grouped_later; [discriminate | constructor | reflexivity].
    + destruct (len w + n + 1 <=? maxLength).
      * rewrite <- glue_snoc.
        apply grouped_later; [now destruct g | exact Hgs |].
        now rewrite <- !app_assoc.
      * change ((((prefix ++ glue " " g0)%string :: map (glue " ") gs)
                 ++ [glue " " g])%list)
          with ((prefix ++ glue " " g0)%string
                :: (map (glue " ") gs ++ map (glue " ") [g])%list).
        rewrite <- map_app. change (w ++ " ") with (glue " " [w]).
        apply grouped_later.
        -- discriminate.
        -- apply Forall_app. split; [exact Hgs | now constructor].
        -- rewrite List.concat_app. cbn [List.concat]. now rewrite app_nil_r, <- !app_assoc.
Qed.

(** X1: the lines the folder emits cut the value between words only: the
    first line is the prefix and a group of words, every later line is a
    group of at least one word, each word followed by one blank, and the
    groups in order are the words of the value. *)
Theorem foldLines_words (maxLength : Z) (prefix s : string) :
  exists (g0 : list string) (gs : list (list string)),
    foldLines maxLength prefix s = (prefix ++ glue " " g0) :: map (glue " ") gs
    /\ (g0 ++ List.concat gs)%list = Split s SP
    /\ Forall (fun g => g <> []) gs.
Proof.
  unfold foldLines.
  assert (H0 : grouped prefix [] ([], prefix, len prefix)).
  { pose proof (grouped_first prefix [] [] (len prefix) eq_refl) as H.
    cbn [glue] in H. now rewrite append_nil_r in H. }
  pose proof (foldLine_grouped maxLength prefix (Split s SP) [] _ H0) as H.
  cbn [app] in H.
  destruct H as [g0 n E | g0 gs g n Hg Hgs E].
  - exists g0, []. cbn [map List.concat app]. rewrite app_nil_r. repeat split; auto.
  - exists g0, (gs ++ [g])%list. rewrite map_app, List.concat_app.
    cbn [map List.concat app]. rewrite app_nil_r. repeat split.
    + now symmetry.
    + apply Forall_app. split; [exact Hgs | now constructor].
Qed.

Lemma foldLines_head (maxLength : Z) (prefix s : string) :
  exists t rest, foldLines maxLength prefix s = (prefix ++ t) :: rest.
Proof.
  unfold foldLines.
  assert (H0 : grouped prefix [] ([], prefix, len prefix)).
  { pose proof (grouped_first prefix [] [] (len prefix) eq_refl) as H.
    cbn [glue] in H. now rewrite append_nil_r in H. }
  pose proof (foldLine_grouped maxLength prefix (Split s SP) [] _ H0) as H.
  destruct H as [g0 n E | g0 gs g n Hg Hgs E]; cbn [app]; eauto.
Qed.

Lemma foldString_shape (maxLength : Z) (prefix s : string) :
  exists middle, foldString maxLength prefix s = prefix ++ middle ++ CRLF.
Proof.
  rewrite foldString_foldLines.
  destruct (foldLines_head maxLength prefix s) as (t & rest & ->).
  unfold Join. destruct rest as [|l rest]; cbn [String.concat].
  - exists t. now rewrite append_assoc.
  - exists (t ++ (CRLF ++ " ") ++ String.concat (CRLF ++ " ") (l :: rest)).
    now rewrite !append_assoc.
Qed.

(** X2: whatever the width, the prefix and the value, the folder's output
    starts with the prefix and ends with CRLF; it is never empty. *)
Theorem foldString_frame (maxLength : Z) (prefix s : string) :
  exists middle, foldString maxLength prefix s = prefix ++ middle ++ CRLF.
Proof.
  rewrite foldString_foldLines.
  destruct (foldLines_head maxLength prefix s) as (t & rest & ->).
  unfold Join. destruct rest as [|l rest]; cbn [String.concat].
  - exists t. now rewrite append_assoc.
  - exists (t ++ (CRLF ++ " ") ++ String.concat (CRLF ++ " ") (l :: rest)).
    now rewrite !append_assoc.
Qed.

(** ** The header folder breaks a line only when it must *)

Lemma adjacent_snoc {A : Type} (R : A -> A -> Prop) (l : list A) (a b : A) :
  adjacent R (l ++ [a]) -> R a b -> adjacent R ((l ++ [a]) ++ [b]).
Proof.
  induction l as [|x l IH]; intros H Hab.
  - cbn. auto.
  - destruct l as [|y l].
    + cbn in *. tauto.
    + cbn [app adjacent] in *. destruct H as [Hxy H]. split; [exact Hxy|].
      now apply IH.
Qed.

Lemma adjacent_last {A : Type} (R : A -> A -> Prop) (l : list A) (a a' : A) :
  adjacent R (l ++ [a]) -> (forall x, R x a -> R x a') -> adjacent R (l ++ [a']).
Proof.
  induction l as [|x l IH]; intros H Hmono.
  - exact I.
  - destruct l as [|y l].
    + cbn in *. split; [apply Hmono; tauto | exact I].
    + cbn [app adjacent] in *. destruct H as [Hxy H]. split; [exact Hxy|].
      now apply IH.
Qed.

Lemma foldLine_breaks (maxLength : Z) (s : string) (ws : list string) :
  forall done line n,
    (forall w, In w ws -> In w (Split s SP)) ->
    adjacent (break_needed maxLength s) (done ++ [line]) ->
    n = len line ->
    let '(done', line', n') := fold_left (foldLine maxLength) ws (done, line, n) in
    adjacent (break_needed maxLength s) (done' ++ [line']) /\ n' = len line'.
Proof.
  induction ws as [|w ws IH]; intros done line n Hws Hadj Hn; cbn [fold_left].
  - auto.
  - unfold foldLine at 2. destruct (len w + n + 1 <=? maxLength) eqn:E.
    + apply IH.
      * intros v Hv. apply Hws. now right.
      * apply (adjacent_last _ _ line); [exact Hadj|].
        intros x (v & rest & Hv & -> & Hlen).
        exists v, (rest ++ w ++ " "). split; [exact Hv|]. split; [|exact Hlen].
        now rewrite !append_assoc.
      * rewrite !len_append. change (len " ") with 1. lia.
    + apply IH.
      * intros v Hv. apply Hws. now right.
      * apply adjacent_snoc; [exact Hadj|].
        exists w, "". split; [apply Hws; now left|]. split; [reflexivity|].
        apply Z.leb_gt in E. lia.
      * rewrite len_append. reflexivity.
Qed.

(** X3: the folder breaks a line only when it must: every line after
    another starts with a word of the value that, with the blank after it,
    would have made the line before longer than the width. *)
Theorem foldLines_breaks_needed (maxLength : Z) (prefix s : string) :
  adjacent (break_needed maxLength s) (foldLines maxLength prefix s).
Proof.
  unfold foldLines.
  pose proof (foldLine_breaks maxLength s (Split s SP) [] prefix (len prefix)
                (fun _ H => H) I eq_refl) as H.
  destruct (fold_left (foldLine maxLength) (Split s SP) ([], prefix, len prefix))
    as [[done line] n].
  apply H.
Qed.

(** ** A header that fits is not folded *)

Lemma len_glue_cons (w : string) (ws : list string) :
  len (glue " " (w :: ws)) = len w + 1 + len (glue " " ws).
Proof. cbn [glue]. rewrite !len_append. change (len " ") with 1. lia. Qed.

Lemma foldWord_fits (maxLength : Z) (ws : list string) :
  forall st,
    lineLength st = len (lineBuffer st) ->
    len (lineBuffer st) + len (glue " " ws) <= maxLength ->
    let st' := fold_left (foldWord maxLength) ws st in
    foldedBuffer st' = foldedBuffer st
    /\ lineBuffer st' = lineBuffer st ++ glue " " ws.
Proof.
  induction ws as [|w ws IH]; intros st Hn Hfit; cbn [fold_left].
  - cbn [glue]. now rewrite append_nil_r.
  - rewrite len_glue_cons in Hfit. pose proof (len_nonneg (glue " " ws)) as Hpos.
    unfold foldWord at 2 4. rewrite Hn.
    assert (E : (len w + len (lineBuffer st) + 1 <=? maxLength) = true)
      by (apply Z.leb_le; lia).
    rewrite E.
    destruct (IH (mkFold (foldedBuffer st) (lineBuffer st ++ w ++ " ")
                         (len (lineBuffer st) + (len w + 1)))) as [Hf Hl].
    + cbn [lineLength lineBuffer]. rewrite !len_append. change (len " ") with 1. lia.
    + cbn [lineBuffer]. rewrite !len_append. change (len " ") with 1. lia.
    + cbn [foldedBuffer lineBuffer] in *. split; [exact Hf|].
      rewrite Hl. cbn [glue]. now rewrite !append_assoc.
Qed.

Lemma foldString_one_line (maxLength : Z) (prefix s : string) :
  len prefix + len s + 1 <= maxLength ->
  foldString maxLength prefix s = prefix ++ s ++ " " ++ CRLF.
Proof.
  intros H. unfold foldString.
  destruct (foldWord_fits maxLength (Split s SP) (mkFold "" prefix (len prefix)))
    as [Hf Hl].
  - reflexivity.
  - cbn [lineBuffer]. rewrite glue_Split, len_append. change (len " ") with 1. lia.
  - rewrite Hf, Hl. cbn [foldedBuffer lineBuffer]. rewrite glue_Split.
    cbn [append]. now rewrite !append_assoc.
Qed.

(** X4: when the prefix, the value and one more byte fit in the width, the
    folder does not break the line: its output is the prefix, the value as
    it is, one blank, and CRLF. *)
Theorem foldString_fits (maxLength : Z) (prefix s : string) :
  len prefix + len s + 1 <= maxLength ->
  foldString maxLength prefix s = prefix ++ s ++ " " ++ CRLF.
Proof.
  intros H. unfold foldString.
  destruct (foldWord_fits maxLength (Split s SP) (mkFold "" prefix (len prefix)))
    as [Hf Hl].
  - reflexivity.
  - cbn [lineBuffer]. rewrite glue_Split, len_append. change (len " ") with 1. lia.
  - rewrite Hf, Hl. cbn [foldedBuffer lineBuffer]. rewrite glue_Split.
    cbn [append]. now rewrite !append_assoc.
Qed.

Lemma foldString_fits_witness :
  len "Subject: " + len "Re: minutes of the meeting" + 1 <= 78
  /\ foldString 78 "Subject: " "Re: minutes of the meeting"
     = "Subject: " ++ "Re: minutes of the meeting" ++ " " ++ CRLF.
Proof.
  split; [vm_compute; discriminate|].
  apply (foldString_fits 78 "Subject: " "Re: minutes of the meeting").
  vm_compute. discriminate.
Defined.

(** ** The two headers every message has *)

Lemma Split_no_sep (b : string) (sep : ascii) :
  forallb_string (fun c => negb (Ascii.eqb c sep)) b = true -> Split b sep = [b].
Proof.
  induction b as [|c b IH]; intros H; [reflexivity|].
  cbn [forallb_string] in H. apply andb_true_iff in H as [Hc Hb].
  cbn [Split]. apply negb_true_iff in Hc. rewrite Hc, (IH Hb). reflexivity.
Qed.

Lemma Split_app_sep (a b : string) (sep : ascii) :
  forallb_string (fun c => negb (Ascii.eqb c sep)) a = true ->
  Split (a ++ String sep b) sep = a :: Split b sep.
Proof.
  induction a as [|c a IH]; intros H.
  - cbn [append Split]. now rewrite Ascii.eqb_refl.
  - cbn [forallb_string] in H. apply andb_true_iff in H as [Hc Ha].
    cbn [append Split]. apply negb_true_iff in Hc. rewrite Hc, (IH Ha). reflexivity.
Qed.

Lemma forallb_string_impl (p q : ascii -> bool) (s : string) :
  (forall c, p c = true -> q c = true) ->
  forallb_string p s = true -> forallb_string q s = true.
Proof.
  intros Hpq. induction s as [|c s IH]; [reflexivity|].
  cbn [forallb_string]. intros H. apply andb_true_iff in H as [Hc Hs].
  now rewrite (Hpq c Hc), (IH Hs).
Qed.

Lemma isHexDigit_not_space (c : ascii) :
  isHexDigit c = true -> negb (Ascii.eqb c SP) = true.
Proof.
  intros H. destruct (Ascii.eqb_spec c SP) as [->|_]; [discriminate H | reflexivity].
Qed.

(** The Content-Type header of the message, for an identifier of forty
    hexadecimal digits: the boundary parameter does not fit on the first
    line. *)
Lemma headerLine_multipart (id : string) :
  String.length id = 40%nat ->
  forallb_string isHexDigit id = true ->
  headerLine "Content-Type"
    ("multipart/alternative; boundary=" ++ DQUOTE ++ ("=_" ++ id) ++ DQUOTE)
  = "Content-Type: multipart/alternative; " ++ CRLF
    ++ " boundary=" ++ DQUOTE ++ "=_" ++ id ++ DQUOTE ++ " " ++ CRLF.
Proof.
  intros Hlen Hhex.
  set (tail := "boundary=" ++ DQUOTE ++ "=_" ++ id ++ DQUOTE).
  change ("multipart/alternative; boundary=" ++ DQUOTE ++ ("=_" ++ id) ++ DQUOTE)
    with ("multipart/alternative;" ++ String SP tail).
  unfold headerLine.
  change (("multipart/alternative;" ++ String SP tail =? "")%string) with false.
  cbv iota. unfold foldString.
  assert (Htail : forallb_string (fun c => negb (Ascii.eqb c SP)) tail = true).
  { unfold tail. rewrite !forallb_string_append.
    rewrite (forallb_string_impl isHexDigit _ id isHexDigit_not_space Hhex).
    reflexivity. }
  assert (Hlt : len tail = 53).
  { unfold tail, len. rewrite !length_append, Hlen. reflexivity. }
  rewrite Split_app_sep by reflexivity. rewrite (Split_no_sep tail SP Htail).
  cbn [fold_left].
  assert (E1 : foldWord 78 (mkFold "" ("Content-Type" ++ ": ")
                              (len ("Content-Type" ++ ": ")))
                 "multipart/alternative;"
               = mkFold "" "Content-Type: multipart/alternative; " 37)
    by reflexivity.
  rewrite E1. unfold foldWord. cbn [lineLength foldedBuffer lineBuffer].
  rewrite Hlt. change (53 + 37 + 1 <=? 78) with false.
  cbv iota. cbn [foldedBuffer lineBuffer]. unfold tail.
  rewrite !append_assoc. unfold DQUOTE, CRLF. cbn [append]. reflexivity.
Qed.

Section FixedHeaders.

Variable Sprintf_v : Email -> string.
Variable Auth : Type.

(** X5: every message gets the same two closing headers: the Content-Type
    header, always folded after [multipart/alternative;] with the boundary
    parameter on a continuation line, and the MIME-Version header; they
    follow the six headers that depend on the message and come before the
    parts, so the output of [Format] is never empty. *)
Theorem Format_fixed_headers (w : World Auth) :
  let email := this w in
  let id := evalState (MessageID Sprintf_v Auth) w in
  evalState (Format Sprintf_v Auth) w
  = (headerLine "To" (Join (To email) ", ")
     ++ headerLine "Cc" (Join (Cc email) ", ")
     ++ headerLine "Bcc" (Join (Bcc email) ", ")
     ++ headerLine "From" (From email)
     ++ headerLine "Subject" (Subject email)
     ++ headerLine "Date" (clock w))
    ++ ("Content-Type: multipart/alternative; " ++ CRLF
        ++ " boundary=" ++ DQUOTE ++ "=_" ++ id ++ DQUOTE ++ " " ++ CRLF)
    ++ ("MIME-Version: 1.0 " ++ CRLF)
    ++ glue "" (map (bodyPart (CRLF ++ "--=_" ++ id) (encoder email))
                    (emailBodies email)).
Proof.
  cbv zeta. unfold evalState. rewrite Format_run. cbn [fst].
  unfold evalState. rewrite !MessageID_run. cbn [fst].
  rewrite headerLine_multipart.
  - change (headerLine "MIME-Version" "1.0") with ("MIME-Version: 1.0 " ++ CRLF).
    now rewrite !append_assoc.
  - now rewrite Sprintf_x_length, sha1_Sum_length.
  - apply Sprintf_x_hex.
Qed.

End FixedHeaders.

(** ** Building a message *)

Section Building.

Variable Sprintf_v : Email -> string.
Variable Auth : Type.

Lemma forEach_AddRecipient (xs : list string) :
  forall w : World Auth,
    forEach xs (AddRecipient Auth) w
    = (tt, mkWorld Auth
             (mkEmail (To (this w) ++ xs)%list (Cc (this w)) (Bcc (this w))
                      (From (this w)) (Subject (this w)) (emailBodies (this w))
                      (encoder (this w)))
             (clock w) (smtp_reply w) (smtp_calls w)).
Proof.
  induction xs as [|x xs IH]; intros [[t c b f s bs e] k r l]; cbn [forEach].
  - unfold ret. cbn. now rewrite app_nil_r.
  - unfold bind. cbn [AddRecipient update modify this clock smtp_reply smtp_calls].
    rewrite IH. cbn. now rewrite <- app_assoc.
Qed.

Lemma forEach_AddCc (xs : list string) :
  forall w : World Auth,
    forEach xs (AddCc Auth) w
    = (tt, mkWorld Auth
             (mkEmail (To (this w)) (Cc (this w) ++ xs)%list (Bcc (this w))
                      (From (this w)) (Subject (this w)) (emailBodies (this w))
                      (encoder (this w)))
             (clock w) (smtp_reply w) (smtp_calls w)).
Proof.
  induction xs as [|x xs IH]; intros [[t c b f s bs e] k r l]; cbn [forEach].
  - unfold ret. cbn. now rewrite app_nil_r.
  - unfold bind. cbn [AddCc update modify this clock smtp_reply smtp_calls].
    rewrite IH. cbn. now rewrite <- app_assoc.
Qed.

Lemma forEach_AddBcc (xs : list string) :
  forall w : World Auth,
    forEach xs (AddBcc Auth) w
    = (tt, mkWorld Auth
             (mkEmail (To (this w)) (Cc (this w)) (Bcc (this w) ++ xs)%list
                      (From (this w)) (Subject (this w)) (emailBodies (this w))
                      (encoder (this w)))
             (clock w) (smtp_reply w) (smtp_calls w)).
Proof.
  induction xs as [|x xs IH]; intros [[t c b f s bs e] k r l]; cbn [forEach].
  - unfold ret. cbn. now rewrite app_nil_r.
  - unfold bind. cbn [AddBcc update modify this clock smtp_reply smtp_calls].
    rewrite IH. cbn. now rewrite <- app_assoc.
Qed.

Lemma forEach_AddBody (xs : list emailBody) :
  forall w : World Auth,
    forEach xs (fun body => AddBody Auth (mimeType body) (bodyText body)) w
    = (tt, mkWorld Auth
             (mkEmail (To (this w)) (Cc (this w)) (Bcc (this w))
                      (From (this w)) (Subject (this w))
                      (emailBodies (this w) ++ xs)%list (encoder (this w)))
             (clock w) (smtp_reply w) (smtp_calls w)).
Proof.
  induction xs as [|[m t'] xs IH]; intros [[t c b f s bs e] k r l]; cbn [forEach].
  - unfold ret. cbn. now rewrite app_nil_r.
  - unfold bind. cbn [AddBody update modify this clock smtp_reply smtp_calls
                        mimeType bodyText].
    rewrite IH. cbn. now rewrite <- app_assoc.
Qed.

(** X6: the adding methods only append, each to its own list: after any
    series of recipients, Cc and Bcc recipients and bodies has been added
    to a message, each list is the old list followed by what was added, in
    the order of adding, and the sender, the subject and the encoder are
    what they were. *)
Theorem Add_series (tos ccs bccs : list string) (bodies : list emailBody)
    (w : World Auth) :
  execState
    (forEach tos (AddRecipient Auth) ;;
     forEach ccs (AddCc Auth) ;;
     forEach bccs (AddBcc Auth) ;;
     forEach bodies (fun body => AddBody Auth (mimeType body) (bodyText body)))
    w
  = mkWorld Auth
      (mkEmail (To (this w) ++ tos)%list (Cc (this w) ++ ccs)%list
               (Bcc (this w) ++ bccs)%list (From (this w)) (Subject (this w))
               (emailBodies (this w) ++ bodies)%list (encoder (this w)))
      (clock w) (smtp_reply w) (smtp_calls w).
Proof.
  unfold execState, bind.
  rewrite forEach_AddRecipient, forEach_AddCc, forEach_AddBcc, forEach_AddBody.
  reflexivity.
Qed.



Lemma Format_last_body (w : World Auth) (bodies : list emailBody) (body : emailBody) :
  emailBodies (this w) = (bodies ++ [body])%list ->
  exists before,
    evalState (Format Sprintf_v Auth) w
    = before
      ++ bodyPart (CRLF ++ "--" ++ "=_" ++ evalState (MessageID Sprintf_v Auth) w)
                  (encoder (this w)) body.
Proof.
  intros H. unfold evalState at 1. rewrite Format_run. cbn [fst].
  rewrite H, map_app, glue_app. cbn [map glue].
  set (P := bodyPart _ _ body).
  change (P ++ "" ++ "") with (P ++ ""). rewrite append_nil_r.
  match goal with
  | |- exists before, ?a ++ ?b ++ ?c ++ ?d ++ ?e ++ ?f ++ ?g ++ ?h ++ ?i ++ P = _ =>
      exists (a ++ b ++ c ++ d ++ e ++ f ++ g ++ h ++ i)
  end.
  now rewrite !append_assoc.
Qed.

(** X8: [AddTextBody] and [AddHtmlBody] make the last part of the output:
    the boundary marker, the Content-Type header with the plain-text or
    HTML type and the utf-8 charset on one line, the transfer-encoding
    header, a blank line, the encoded text and CRLF. *)
Theorem Format_after_AddTextBody_AddHtmlBody (body : string) (w : World Auth) :
  let enc := encoder (this w) in
  let part (w' : World Auth) (contentType : string) :=
    (CRLF ++ "--=_" ++ evalState (MessageID Sprintf_v Auth) w' ++ CRLF)
    ++ contentType
    ++ headerLine "Content-Transfer-Encoding" (TransferEncodingType enc)
    ++ CRLF ++ Encode enc body ++ CRLF in
  (let w' := execState (AddTextBody Auth body) w in
   exists before,
     evalState (Format Sprintf_v Auth) w'
     = before ++ part w' ("Content-Type: text/plain; charset=utf-8 " ++ CRLF))
  /\ (let w' := execState (AddHtmlBody Auth body) w in
      exists before,
        evalState (Format Sprintf_v Auth) w'
        = before ++ part w' ("Content-Type: text/html; charset=utf-8 " ++ CRLF)).
Proof.
  cbv zeta. split.
  - destruct (Format_last_body (execState (AddTextBody Auth body) w)
                (emailBodies (this w)) (mkBody "text/plain; charset=utf-8" body)
                eq_refl) as (before & H).
    exists before. rewrite H. f_equal.
  - destruct (Format_last_body (execState (AddHtmlBody Auth body) w)
                (emailBodies (this w)) (mkBody "text/html; charset=utf-8" body)
                eq_refl) as (before & H).
    exists before. rewrite H. f_equal.
Qed.

End Building.

(** ** A header on its way into the buffer *)

(** X9: [addHeader] only appends to what [String] returns and leaves the
    boundary and the encoder alone; with an empty value it appends
    nothing; with any other value it appends text that starts with the
    field name, a colon and a space and ends with CRLF; and when the field
    name, the value and three more bytes fit in 78 bytes that text is one
    line: name, colon, space, the value, a blank, CRLF. *)
Theorem addHeader_String (field value : string) (e : formattedEmail) :
  let e' := execState (addHeader field value) e in
  boundary e' = boundary e
  /\ fencoder e' = fencoder e
  /\ (value = "" -> formattedEmail_String e' = formattedEmail_String e)
  /\ (value <> "" ->
      exists middle,
        formattedEmail_String e'
        = formattedEmail_String e ++ (field ++ ": ") ++ middle ++ CRLF)
  /\ (value <> "" ->
      len field + len value + 3 <= 78 ->
      formattedEmail_String e'
      = formattedEmail_String e ++ field ++ ": " ++ value ++ " " ++ CRLF).
Proof.
  cbv zeta. unfold execState, formattedEmail_String.
  rewrite (writes_addHeader field value e). cbn [snd buffer boundary fencoder].
  split; [reflexivity|]. split; [reflexivity|]. unfold headerLine.
  destruct (String.eqb_spec value "") as [->|ne].
  - split; [intros _; apply append_nil_r|].
    split; intros H; now elim H.
  - split; [intros H; now elim ne|]. split.
    + intros _. destruct (foldString_shape 78 (field ++ ": ") value) as (middle & ->).
      now exists middle.
    + intros _ Hfit. rewrite foldString_one_line.
      * now rewrite !append_assoc.
      * rewrite len_append. change (len ": ") with 2. lia.
Qed.

Lemma addHeader_String_witness :
  let e := mkFormatted ("To: a@x.com " ++ CRLF) (CRLF ++ "--=_b") Concrete.unnamedEncoder in
  let e' := execState (addHeader "Subject" "Hi") e in
  "Hi" <> "" /\ len "Subject" + len "Hi" + 3 <= 78
  /\ formattedEmail_String e'
     = formattedEmail_String e ++ "Subject" ++ ": " ++ "Hi" ++ " " ++ CRLF.
Proof.
  cbv zeta. split; [discriminate|]. split; [vm_compute; discriminate|].
  apply (addHeader_String "Subject" "Hi").
  - discriminate.
  - vm_compute. discriminate.
Defined.

(** ** Recipients are not cut in two *)

Lemma glue_In (sep : string) (g : list string) (w : string) :
  In w g -> exists a b, glue sep g = a ++ w ++ sep ++ b.
Proof.
  induction g as [|x g IH]; intros H; [now elim H|].
  destruct H as [->|H].
  - exists "", (glue sep g). reflexivity.
  - destruct (IH H) as (a & b & E). exists (x ++ sep ++ a), b.
    cbn [glue]. rewrite E. now rewrite !append_assoc.
Qed.

Lemma word_in_line (maxLength : Z) (prefix s w : string) :
  In w (Split s SP) ->
  exists line a b,
    In line (foldLines maxLength prefix s) /\ line = a ++ w ++ " " ++ b.
Proof.
  intros Hw. unfold foldLines.
  assert (H0 : grouped prefix [] ([], prefix, len prefix)).
  { pose proof (grouped_first prefix [] [] (len prefix) eq_refl) as H.
    cbn [glue] in H. now rewrite append_nil_r in H. }
  pose proof (foldLine_grouped maxLength prefix (Split s SP) [] _ H0) as H.
  cbn [app] in H.
  destruct H as [g0 n E | g0 gs g n Hg Hgs E].
  - rewrite E in Hw. destruct (glue_In " " g0 w Hw) as (a & b & Ea).
    exists (prefix ++ glue " " g0), (prefix ++ a), b. split; [now left|].
    rewrite Ea. now rewrite !append_assoc.
  - rewrite E in Hw. apply in_app_or in Hw as [Hw|Hw];
      [|apply in_app_or in Hw as [Hw|Hw]].
    + destruct (glue_In " " g0 w Hw) as (a & b & Ea).
      exists (prefix ++ glue " " g0), (prefix ++ a), b. split; [now left|].
      rewrite Ea. now rewrite !append_assoc.
    + apply in_concat in Hw as (g' & Hg' & Hw).
      destruct (glue_In " " g' w Hw) as (a & b & Ea).
      exists (glue " " g'), a, b. split; [|exact Ea].
      apply in_or_app. left. right. now apply in_map.
    + destruct (glue_In " " g w Hw) as (a & b & Ea).
      exists (glue " " g), a, b. split; [|exact Ea].
      apply in_or_app. right. now left.
Qed.

Lemma mailbox_in_word (mailboxes : list string) (m : string) :
  Forall (fun x => forallb_string (fun c => negb (Ascii.eqb c SP)) x = true) mailboxes ->
  In m mailboxes ->
  exists w t, In w (Split (Join mailboxes ", ") SP) /\ w = m ++ t.
Proof.
  induction mailboxes as [|x rest IH]; intros Hall Hm; [now elim Hm|].
  assert (Hx : forallb_string (fun c => negb (Ascii.eqb c SP)) x = true)
    by (now apply Forall_inv in Hall).
  apply Forall_inv_tail in Hall.
  destruct rest as [|y rest].
  - destruct Hm as [->|[]]. exists m, "". unfold Join. cbn [String.concat].
    rewrite (Split_no_sep m SP Hx). split; [now left | now rewrite append_nil_r].
  - assert (E : Join (x :: y :: rest) ", "
                = (x ++ ",") ++ String SP (Join (y :: rest) ", ")).
    { unfold Join. cbn [String.concat]. now rewrite append_assoc. }
    rewrite E, Split_app_sep
      by (rewrite forallb_string_append, Hx; reflexivity).
    destruct Hm as [->|Hm].
    + exists (m ++ ","), ",". split; [now left | reflexivity].
    + destruct (IH Hall Hm) as (w & t & Hw & Et).
      exists w, t. split; [now right | exact Et].
Qed.

(** X10: a recipient is not cut in two: when no mailbox of the list holds a
    space, each of them stands whole on one of the lines that the folder
    makes of the list joined by comma and space, whatever the width and
    the prefix. *)
Theorem mailbox_whole (maxLength : Z) (prefix : string) (mailboxes : list string)
    (m : string) :
  Forall (fun x => forallb_string (fun c => negb (Ascii.eqb c SP)) x = true) mailboxes ->
  In m mailboxes ->
  exists line a b,
    In line (foldLines maxLength prefix (Join mailboxes ", "))
    /\ line = a ++ m ++ b.
Proof.
  intros Hall Hm.
  destruct (mailbox_in_word mailboxes m Hall Hm) as (w & t & Hw & ->).
  destruct (word_in_line maxLength prefix _ _ Hw) as (line & a & b & Hl & ->).
  exists (a ++ (m ++ t) ++ " " ++ b), a, (t ++ " " ++ b).
  split; [exact Hl | now rewrite !append_assoc].
Qed.

Lemma mailbox_whole_witness :
  Forall (fun x => forallb_string (fun c => negb (Ascii.eqb c SP)) x = true)
         ["alice@example.org"; "bob@example.org"]
  /\ In "bob@example.org" ["alice@example.org"; "bob@example.org"]
  /\ exists line a b,
       In line (foldLines 20 "To: " (Join ["alice@example.org"; "bob@example.org"] ", "))
       /\ line = a ++ "bob@example.org" ++ b.
Proof.
  assert (H : Forall (fun x => forallb_string (fun c => negb (Ascii.eqb c SP)) x = true)
                     ["alice@example.org"; "bob@example.org"])
    by (repeat constructor).
  split; [exact H|]. split; [right; now left|].
  apply (mailbox_whole 20 "To: " ["alice@example.org"; "bob@example.org"]
           "bob@example.org" H).
  right. now left.
Defined.

(** ** A message with nothing set *)

Section Fresh.

Variable Sprintf_v : Email -> string.
Variable Auth : Type.

(** X11: an email as [NewEmailWithEncoder] (and so [NewEmail]) makes it, with
    nothing added or set, still formats: when the clock's reading is not
    empty and at most 71 bytes long the output is the Date header on one
    line, the folded Content-Type header and the MIME-Version header, with
    no recipient, sender or subject line and no part. *)
Theorem Format_new_email (enc : TransferEncoder) (now : string)
    (reply : nat -> SendMailCall Auth -> error) (calls : list (SendMailCall Auth)) :
  now <> "" ->
  len now <= 71 ->
  let w := mkWorld Auth (NewEmailWithEncoder enc) now reply calls in
  let id := evalState (MessageID Sprintf_v Auth) w in
  evalState (Format Sprintf_v Auth) w
  = ("Date: " ++ now ++ " " ++ CRLF)
    ++ ("Content-Type: multipart/alternative; " ++ CRLF
        ++ " boundary=" ++ DQUOTE ++ "=_" ++ id ++ DQUOTE ++ " " ++ CRLF)
    ++ ("MIME-Version: 1.0 " ++ CRLF).
Proof.
  intros Hne Hlen. cbv zeta. unfold evalState. rewrite Format_run. cbn [fst].
  unfold evalState. rewrite !MessageID_run.
  cbn [fst this clock NewEmailWithEncoder To Cc Bcc From Subject emailBodies map glue].
  rewrite headerLine_multipart
    by (rewrite ?Sprintf_x_length, ?sha1_Sum_length; auto using Sprintf_x_hex).
  change (headerLine "To" (Join [] ", ")) with "".
  change (headerLine "Cc" (Join [] ", ")) with "".
  change (headerLine "Bcc" (Join [] ", ")) with "".
  change (headerLine "From" "") with "".
  change (headerLine "Subject" "") with "".
  change (headerLine "MIME-Version" "1.0") with ("MIME-Version: 1.0 " ++ CRLF).
  unfold headerLine. destruct (String.eqb_spec now "") as [E|_]; [now elim Hne|].
  rewrite foldString_one_line by (change (len ("Date" ++ ": ")) with 6; lia).
  cbn [append]. now rewrite !append_assoc, append_nil_r.
Qed.

End Fresh.

Lemma Format_new_email_witness :
  let Sprintf_v := Concrete.Sprintf_v Concrete.show in
  let w :=
    mkWorld Concrete.Auth (NewEmail Concrete.quotedPrintable_NewEncoder)
            Concrete.date Concrete.accepting [] in
  let id := evalState (MessageID Sprintf_v Concrete.Auth) w in
  Concrete.date <> ""
  /\ len Concrete.date <= 71
  /\ evalState (Format Sprintf_v Concrete.Auth) w
     = ("Date: " ++ Concrete.date ++ " " ++ CRLF)
       ++ ("Content-Type: multipart/alternative; " ++ CRLF
           ++ " boundary=" ++ DQUOTE ++ "=_" ++ id ++ DQUOTE ++ " " ++ CRLF)
       ++ ("MIME-Version: 1.0 " ++ CRLF).
Proof.
  cbv zeta. split; [discriminate|]. split; [vm_compute; discriminate|].
  apply (Format_new_email (Concrete.Sprintf_v Concrete.show) Concrete.Auth
           Concrete.quotedPrintable_NewEncoder Concrete.date Concrete.accepting []).
  - discriminate.
  - vm_compute. discriminate.
Defined.
